(** * zipfs: a FastCGI server that serves the entries of zip archives.

    Shallow embedding of the Go sources.  The current revision of the server
    ([getArchive], [ServeHTTP], [FindRaw], [SendDirectory], [SendFile],
    [GetMime]) is embedded at top level; the earlier revision kept in
    [main.go] ([Find], [RespondWith]) is embedded in [Module MainGo].

    The Go standard library is not part of the repository.  Small functions
    of it ([strings.Trim], [strings.HasSuffix], [strings.Contains],
    [filepath.Ext], [binary.Write], [http.Error], [http.DetectContentType],
    the [http.ResponseWriter] contract, [zip.Reader.Open]) are modelled after
    their documented behaviour; tables and larger functions ([mime]'s
    extension table, [path.Join], time formatting, the listing template, the
    file system behind [zip.OpenReader]) are fields of the class
    [GoLibrary], so every theorem holds for each of their implementations. *)

From Stdlib Require Import ZArith List Ascii String Bool Lia.
From stdpp Require Import base option gmap strings list.
Import ListNotations.

Local Open Scope Z_scope.
Local Open Scope string_scope.

(** ** Errors and panics *)

(** A Go [(T, error)] pair: the value, or the text of the error. *)
Inductive result (A : Type) : Type :=
| Ok (a : A)
| Err (msg : string).
Arguments Ok {A} a.
Arguments Err {A} msg.

(** A Go call either returns or panics. *)
Inductive outcome (A : Type) : Type :=
| Ret (a : A)
| Panic (msg : string).
Arguments Ret {A} a.
Arguments Panic {A} msg.

Definition obind {A B : Type} (k : A → outcome B) (m : outcome A) : outcome B :=
  match m with
  | Ret a => k a
  | Panic msg => Panic msg
  end.

#[global] Instance outcome_ret : MRet outcome := fun A a => Ret a.
#[global] Instance outcome_bind : MBind outcome := fun A B k m => obind k m.

Definition nil_dereference : string :=
  "runtime error: invalid memory address or nil pointer dereference".

(** ** Strings and bytes *)

Definition bytes : Type := list Byte.byte.

Definition byte_of_Z (z : Z) : Byte.byte :=
  match Byte.of_N (Z.to_N (z mod 256)) with
  | Some b => b
  | None => Byte.x00
  end.

(** [uint32(x)]: conversion to an unsigned 32-bit integer wraps around. *)
Definition uint32 (x : Z) : Z := x mod 2 ^ 32.

(** [binary.Write(w, binary.LittleEndian, x)] for a [uint32]: four bytes,
    least significant first. *)
Definition le32 (x : Z) : bytes :=
  [byte_of_Z x; byte_of_Z (Z.shiftr x 8); byte_of_Z (Z.shiftr x 16);
   byte_of_Z (Z.shiftr x 24)].

Definition bytes_of_string (s : string) : bytes := list_byte_of_string s.

(** [strings.HasSuffix]. *)
Definition HasSuffix (s suffix : string) : bool :=
  (String.length suffix <=? String.length s)%nat
  && String.eqb
       (substring (String.length s - String.length suffix)
                  (String.length suffix) s)
       suffix.

(** [strings.Contains]: [substr] occurs somewhere in [s]. *)
Fixpoint Contains (s substr : string) : bool :=
  if String.prefix substr s then true
  else match s with
       | EmptyString => false
       | String _ s' => Contains s' substr
       end.

Definition in_cutset (cutset : string) (c : ascii) : bool :=
  existsb (Ascii.eqb c) (list_ascii_of_string cutset).

Fixpoint TrimLeft_list (cutset : string) (l : list ascii) : list ascii :=
  match l with
  | c :: l' => if in_cutset cutset c then TrimLeft_list cutset l' else l
  | [] => []
  end.

(** [strings.Trim]: all leading and trailing characters of [cutset] removed. *)
Definition Trim (s cutset : string) : string :=
  string_of_list_ascii
    (rev (TrimLeft_list cutset
            (rev (TrimLeft_list cutset (list_ascii_of_string s))))).

(** [filepath.Ext]: the suffix beginning at the final dot of the final
    element of the path, empty if there is no dot. *)
Fixpoint Ext_rev (l acc : list ascii) : list ascii :=
  match l with
  | [] => []
  | c :: l' =>
      if Ascii.eqb c "/" then []
      else if Ascii.eqb c "." then c :: acc
      else Ext_rev l' (c :: acc)
  end.

Definition Ext (path : string) : string :=
  string_of_list_ascii (Ext_rev (rev (list_ascii_of_string path)) []).

(** ** Content sniffing: [http.DetectContentType] (net/http, sniff.go) *)

Module sniff.

Definition bval (b : Byte.byte) : N := Byte.to_N b.

Definition sniffLen : nat := 512.

Definition isWS (b : Byte.byte) : bool :=
  existsb (N.eqb (bval b)) [9; 10; 12; 13; 32]%N.

Definition isTT (b : Byte.byte) : bool :=
  existsb (N.eqb (bval b)) [32; 62]%N.

Inductive sniffSig : Type :=
| htmlSig (h : bytes)
| maskedSig (mask pat : bytes) (skipWS : bool) (ct : string)
| exactSig (sig : bytes) (ct : string)
| mp4Sig
| textSig.

(** [bytes.HasPrefix]. *)
Fixpoint HasPrefix (data sig : bytes) : bool :=
  match sig, data with
  | [], _ => true
  | s :: sig', d :: data' => N.eqb (bval s) (bval d) && HasPrefix data' sig'
  | _ :: _, [] => false
  end.

(** The loop of [maskedSig.match], after the two length checks. *)
Fixpoint masked_loop (data mask pat : bytes) : bool :=
  match pat, mask, data with
  | [], _, _ => true
  | pb :: pat', m :: mask', d :: data' =>
      N.eqb (N.land (bval d) (bval m)) (bval pb)
      && masked_loop data' mask' pat'
  | _, _, _ => false
  end.

(** The loop of [htmlSig.match]: the data byte is upper-cased where the
    signature has a capital letter. *)
Fixpoint html_loop (data h : bytes) : bool :=
  match h, data with
  | [], _ => true
  | b :: h', d :: data' =>
      let db := if (65 <=? bval b)%N && (bval b <=? 90)%N
                then N.land (bval d) 223 else bval d in
      N.eqb (bval b) db && html_loop data' h'
  | _ :: _, [] => false
  end.

Definition BigEndian_Uint32 (b : bytes) : N :=
  fold_left (fun acc x => acc * 256 + bval x)%N (take 4 b) 0%N.

Definition bytes_eqb (a b : bytes) : bool :=
  Nat.eqb (length a) (length b) && HasPrefix a b.

(** The loop of [mp4Sig.match]: [st] runs from 8 in steps of 4 while it is
    below [boxSize]; [n] bounds the number of iterations. *)
Fixpoint mp4_loop (n : nat) (data : bytes) (st boxSize : nat) : bool :=
  match n with
  | O => false
  | S n' =>
      if negb (st <? boxSize)%nat then false
      else if Nat.eqb st 12 then mp4_loop n' data (st + 4) boxSize
      else if bytes_eqb (take 3 (drop st data)) (bytes_of_string "mp4")
           then true
           else mp4_loop n' data (st + 4) boxSize
  end.

Definition sig_match (sig : sniffSig) (data : bytes) (firstNonWS : nat)
  : string :=
  match sig with
  | exactSig sg ct => if HasPrefix data sg then ct else ""
  | maskedSig mask pat skipWS ct =>
      let data := if skipWS then drop firstNonWS data else data in
      if negb (Nat.eqb (length pat) (length mask)) then ""
      else if (length data <? length pat)%nat then ""
      else if masked_loop data mask pat then ct else ""
  | htmlSig h =>
      let data := drop firstNonWS data in
      if (length data <? length h + 1)%nat then ""
      else if negb (html_loop data h) then ""
      else match data !! length h with
           | Some b => if isTT b then "text/html; charset=utf-8" else ""
           | None => ""
           end
  | mp4Sig =>
      if (length data <? 12)%nat then ""
      else
        let boxSize := N.to_nat (BigEndian_Uint32 data) in
        if (length data <? boxSize)%nat
           || negb (Nat.eqb (boxSize mod 4) 0) then ""
        else if negb (bytes_eqb (take 4 (drop 4 data))
                                (bytes_of_string "ftyp")) then ""
        else if mp4_loop (length data) data 8 boxSize then "video/mp4"
        else ""
  | textSig =>
      if existsb
           (fun b => (bval b <=? 8)%N || N.eqb (bval b) 11
                     || ((14 <=? bval b)%N && (bval b <=? 26)%N)
                     || ((28 <=? bval b)%N && (bval b <=? 31)%N))
           (drop firstNonWS data)
      then "" else "text/plain; charset=utf-8"
  end.

Definition B (l : list Z) : bytes := map byte_of_Z l.
Definition T (s : string) : bytes := bytes_of_string s.

(** The signature table of sniff.go, in its order. *)
Definition sniffSignatures : list sniffSig :=
  [ htmlSig (T "<!DOCTYPE HTML"); htmlSig (T "<HTML"); htmlSig (T "<HEAD");
    htmlSig (T "<SCRIPT"); htmlSig (T "<IFRAME"); htmlSig (T "<H1");
    htmlSig (T "<DIV"); htmlSig (T "<FONT"); htmlSig (T "<TABLE");
    htmlSig (T "<A"); htmlSig (T "<STYLE"); htmlSig (T "<TITLE");
    htmlSig (T "<B"); htmlSig (T "<BODY"); htmlSig (T "<BR");
    htmlSig (T "<P"); htmlSig (T "<!--");
    maskedSig (B [0xFF; 0xFF; 0xFF; 0xFF; 0xFF]) (T "<?xml") true
      "text/xml; charset=utf-8";
    exactSig (T "%PDF-") "application/pdf";
    exactSig (T "%!PS-Adobe-") "application/postscript";
    maskedSig (B [0xFF; 0xFF; 0; 0]) (B [0xFE; 0xFF; 0; 0]) false
      "text/plain; charset=utf-16be";
    maskedSig (B [0xFF; 0xFF; 0; 0]) (B [0xFF; 0xFE; 0; 0]) false
      "text/plain; charset=utf-16le";
    maskedSig (B [0xFF; 0xFF; 0xFF; 0]) (B [0xEF; 0xBB; 0xBF; 0]) false
      "text/plain; charset=utf-8";
    exactSig (B [0; 0; 1; 0]) "image/x-icon";
    exactSig (B [0; 0; 2; 0]) "image/x-icon";
    exactSig (T "BM") "image/bmp";
    exactSig (T "GIF87a") "image/gif";
    exactSig (T "GIF89a") "image/gif";
    maskedSig (B [0xFF; 0xFF; 0xFF; 0xFF; 0; 0; 0; 0;
                  0xFF; 0xFF; 0xFF; 0xFF; 0xFF; 0xFF])
      (T "RIFF" ++ B [0; 0; 0; 0] ++ T "WEBPVP")%list false "image/webp";
    exactSig (B [0x89] ++ T "PNG" ++ B [0x0D; 0x0A; 0x1A; 0x0A])%list "image/png";
    exactSig (B [0xFF; 0xD8; 0xFF]) "image/jpeg";
    maskedSig (B [0xFF; 0xFF; 0xFF; 0xFF; 0; 0; 0; 0; 0xFF; 0xFF; 0xFF; 0xFF])
      (T "FORM" ++ B [0; 0; 0; 0] ++ T "AIFF")%list false "audio/aiff";
    maskedSig (B [0xFF; 0xFF; 0xFF]) (T "ID3") false "audio/mpeg";
    maskedSig (B [0xFF; 0xFF; 0xFF; 0xFF; 0xFF]) (T "OggS" ++ B [0])%list false
      "application/ogg";
    maskedSig (B [0xFF; 0xFF; 0xFF; 0xFF; 0xFF; 0xFF; 0xFF; 0xFF])
      (T "MThd" ++ B [0; 0; 0; 6])%list false "audio/midi";
    maskedSig (B [0xFF; 0xFF; 0xFF; 0xFF; 0; 0; 0; 0; 0xFF; 0xFF; 0xFF; 0xFF])
      (T "RIFF" ++ B [0; 0; 0; 0] ++ T "AVI ")%list false "video/avi";
    maskedSig (B [0xFF; 0xFF; 0xFF; 0xFF; 0; 0; 0; 0; 0xFF; 0xFF; 0xFF; 0xFF])
      (T "RIFF" ++ B [0; 0; 0; 0] ++ T "WAVE")%list false "audio/wave";
    mp4Sig;
    exactSig (B [0x1A; 0x45; 0xDF; 0xA3]) "video/webm";
    maskedSig (B (replicate 34 0 ++ [0xFF; 0xFF])%list)
      (B (replicate 34 0) ++ T "LP")%list false "application/vnd.ms-fontobject";
    exactSig (B [0; 1; 0; 0]) "font/ttf";
    exactSig (T "OTTO") "font/otf";
    exactSig (T "ttcf") "font/collection";
    exactSig (T "wOFF") "font/woff";
    exactSig (T "wOF2") "font/woff2";
    exactSig (B [0x1F; 0x8B; 0x08]) "application/x-gzip";
    exactSig (T "PK" ++ B [3; 4])%list "application/zip";
    exactSig (T "Rar!" ++ B [0x1A; 0x07; 0x00])%list "application/x-rar-compressed";
    exactSig (T "Rar!" ++ B [0x1A; 0x07; 0x01; 0x00])%list
      "application/x-rar-compressed";
    exactSig (B [0x00; 0x61; 0x73; 0x6D]) "application/wasm";
    textSig ].

Fixpoint firstNonWS_of (data : bytes) : nat :=
  match data with
  | b :: data' => if isWS b then S (firstNonWS_of data') else O
  | [] => O
  end.

(** The loop over the signatures and the fallback behind it. *)
Fixpoint first_match (sigs : list sniffSig) (data : bytes) (firstNonWS : nat)
  : string :=
  match sigs with
  | sig :: sigs' =>
      let ct := sig_match sig data firstNonWS in
      if negb (String.eqb ct "") then ct
      else first_match sigs' data firstNonWS
  | [] => "application/octet-stream"
  end.

Definition DetectContentType (data : bytes) : string :=
  let data := take sniffLen data in
  first_match sniffSignatures data (firstNonWS_of data).

End sniff.

(** ** net/http: header keys, requests and response writers *)

Definition is_lower (c : ascii) : bool :=
  (97 <=? nat_of_ascii c)%nat && (nat_of_ascii c <=? 122)%nat.
Definition is_upper (c : ascii) : bool :=
  (65 <=? nat_of_ascii c)%nat && (nat_of_ascii c <=? 90)%nat.
Definition is_digit (c : ascii) : bool :=
  (48 <=? nat_of_ascii c)%nat && (nat_of_ascii c <=? 57)%nat.

Definition validHeaderFieldByte (c : ascii) : bool :=
  is_lower c || is_upper c || is_digit c || in_cutset "!#$%&'*+-.^_`|~" c.

Fixpoint canon_loop (upper : bool) (l : list ascii) : list ascii :=
  match l with
  | [] => []
  | c :: l' =>
      let c' := if upper && is_lower c then ascii_of_nat (nat_of_ascii c - 32)
                else if negb upper && is_upper c
                     then ascii_of_nat (nat_of_ascii c + 32)
                     else c in
      c' :: canon_loop (Ascii.eqb c' "-") l'
  end.

(** [textproto.CanonicalMIMEHeaderKey]: a key that is not a token is left as
    it is. *)
Definition CanonicalMIMEHeaderKey (s : string) : string :=
  if forallb validHeaderFieldByte (list_ascii_of_string s)
  then string_of_list_ascii (canon_loop true (list_ascii_of_string s))
  else s.

(** An [http.Header], read and written through [Get], [Set] and [Del] only:
    the first value under each canonical key. *)
Definition Header_Get (h : gmap string string) (key : string) : string :=
  default "" (h !! CanonicalMIMEHeaderKey key).

(** The request as the handlers read it: [r.Method], [r.URL.Path],
    [r.Header] and the CGI variables that [fcgi.ProcessEnv(r)] returns. *)
Record Request : Type := {
  req_Method : string;
  URL_Path : string;
  req_Header : gmap string string;
  ProcessEnv : gmap string string
}.

(** [env[key]] on a Go map: the empty string when the key is absent. *)
Definition env_get (env : gmap string string) (key : string) : string :=
  default "" (env !! key).

(** The [http.ResponseWriter] contract: the header map the handler reads and
    writes, the status once it is written ([None] before), the header map as
    it stood when the status was written ([head]: what goes out with the
    status; later changes of [header] do not reach the client), and the body
    bytes written so far. *)
Record ResponseWriter : Type := {
  header : gmap string string;
  status : option Z;
  head : gmap string string;
  body : bytes
}.

Definition new_ResponseWriter : ResponseWriter :=
  {| header := ∅; status := None; head := ∅; body := [] |}.

Definition Header_Set (key value : string) (w : ResponseWriter)
  : ResponseWriter :=
  {| header := <[CanonicalMIMEHeaderKey key := value]> (header w);
     status := status w; head := head w; body := body w |}.

Definition Header_Del (key : string) (w : ResponseWriter) : ResponseWriter :=
  {| header := delete (CanonicalMIMEHeaderKey key) (header w);
     status := status w; head := head w; body := body w |}.

(** Only the first [WriteHeader] counts; it fixes the header that is sent. *)
Definition WriteHeader (code : Z) (w : ResponseWriter) : ResponseWriter :=
  match status w with
  | Some _ => w
  | None => {| header := header w; status := Some code; head := header w;
               body := body w |}
  end.

(** A [Write] before any [WriteHeader] first writes the header with
    [http.StatusOK]. *)
Definition Write (p : bytes) (w : ResponseWriter) : ResponseWriter :=
  let w := WriteHeader 200 w in
  {| header := header w; status := status w; head := head w;
     body := (body w ++ p)%list |}.

(** The header the client receives: the one fixed with the status, or, when
    the handler returns before anything was written, the map as it is then. *)
Definition sent_header (w : ResponseWriter) : gmap string string :=
  match status w with
  | Some _ => head w
  | None => header w
  end.

Definition Fprint (w : ResponseWriter) (s : string) : ResponseWriter :=
  Write (bytes_of_string s) w.

Definition newline : string := String (ascii_of_nat 10) EmptyString.

Definition Fprintln (w : ResponseWriter) (s : string) : ResponseWriter :=
  Write (bytes_of_string (s ++ newline)) w.

(** [io.Copy(w, src)]: nothing is written for an empty source. *)
Definition io_Copy (w : ResponseWriter) (src : bytes) : ResponseWriter :=
  match src with
  | [] => w
  | _ :: _ => Write src w
  end.

Definition StatusOK : Z := 200.
Definition StatusMovedPermanently : Z := 301.
Definition StatusNotFound : Z := 404.
Definition StatusInternalServerError : Z := 500.

(** [http.Error]. *)
Definition http_Error (w : ResponseWriter) (error : string) (code : Z)
  : ResponseWriter :=
  let w := Header_Del "Content-Length" w in
  let w := Header_Set "Content-Type" "text/plain; charset=utf-8" w in
  let w := Header_Set "X-Content-Type-Options" "nosniff" w in
  let w := WriteHeader code w in
  Fprintln w error.

(** ** archive/zip *)

(** A [time.Time], observed through [Unix()] and [Format]. *)
Record Time : Type := {
  Unix : Z;          (* seconds since the epoch, an int64 *)
  zone_offset : Z    (* offset of the zone the archive recorded *)
}.

Definition Store : Z := 0.
Definition Deflate : Z := 8.

(** A [zip.File].  [ptr] is the address of the object (the key of
    [mimeCache]); [File_Open] and [File_OpenRaw] are what [f.Open()] and
    [f.OpenRaw()] give: the error, or the bytes the returned reader yields. *)
Record zip_File : Type := {
  ptr : positive;
  Name : string;
  Method : Z;
  Modified : Time;
  CRC32 : Z;
  UncompressedSize64 : Z;
  File_Open : result bytes;
  File_OpenRaw : result bytes
}.

(** An entry of the reader's private file list.  [file] is a [*zip.File],
    nil for the root and for directories the list synthesises. *)
Record fileListEntry : Type := {
  name : string;
  file : option zip_File;
  isDir : bool;
  isDup : bool
}.

Record DirEntry : Type := {
  de_Name : string;
  de_IsDir : bool
}.

Record Reader : Type := {
  Files : list zip_File
}.

(** The two kinds of [fs.File] that [zip.Reader.Open] returns, with the
    private fields that [FindRaw] reads by reflection. *)
Inductive fs_File : Type :=
| openDir (e : fileListEntry) (files : list fileListEntry) (offset : nat)
| checksumReader (rc : bytes) (f : option zip_File).

(** The type assertion [entry.File.(fs.ReadDirFile)]: only [openDir] has a
    [ReadDir] method. *)
Definition is_ReadDirFile (h : fs_File) : bool :=
  match h with
  | openDir _ _ _ => true
  | checksumReader _ _ => false
  end.

(** What reading the handle to its end yields; reading a directory fails at
    once. *)
Definition Read_all (h : fs_File) : bytes :=
  match h with
  | openDir _ _ _ => []
  | checksumReader rc _ => rc
  end.

(** [zip.File.Open]: the reader remembers the file it was opened from. *)
Definition zip_File_Open (f : zip_File) : result fs_File :=
  match File_Open f with
  | Err e => Err e
  | Ok rc => Ok (checksumReader rc (Some f))
  end.

(** ** The parts of the Go library and of the environment left abstract *)

Class GoLibrary : Type := {
  (** [mime.TypeByExtension]: the extension table; empty when unknown *)
  mime_TypeByExtension : string → string;
  (** [path.Join] of two elements *)
  path_Join : string → string → string;
  (** [t.Format(http.TimeFormat)] *)
  time_Format : Time → string;
  (** [fs.ValidPath] *)
  fs_ValidPath : string → bool;
  (** [zip.Reader.openLookup] and [openReadDir] on the reader's file list *)
  zip_openLookup : Reader → string → option fileListEntry;
  zip_openReadDir : Reader → string → list fileListEntry;
  (** [openDir.ReadDir(-1)] *)
  zip_ReadDir : list fileListEntry → result (list DirEntry);
  (** [zip.OpenReader]: the archives of the file system *)
  zip_OpenReader : string → result Reader;
  (** what [tmpl.ExecuteTemplate(w, "dir.html", {Path, Entries})] writes *)
  dir_html : string → list DirEntry → bytes;
  (** the target that [http.Redirect] puts in [Location] and the body it
      writes for it *)
  redirect_Location : Request → string → string;
  redirect_body : string → Z → string
}.

Section Server.

Context `{GoLibrary}.

(** [zip.Reader.Open]. *)
Definition Reader_Open (r : Reader) (nm : string) : outcome (result fs_File) :=
  if negb (fs_ValidPath nm) then
    Ret (Err ("open " ++ nm ++ ": invalid argument"))
  else
    match zip_openLookup r nm with
    | None => Ret (Err ("open " ++ nm ++ ": file does not exist"))
    | Some e =>
        if isDir e then Ret (Ok (openDir e (zip_openReadDir r nm) 0))
        else match file e with
             | None => Panic nil_dereference
             | Some f => Ret (zip_File_Open f)
             end
    end.

(** [http.Redirect]. *)
Definition http_Redirect (w : ResponseWriter) (r : Request) (url : string)
    (code : Z) : ResponseWriter :=
  let url := redirect_Location r url in
  let hadCT := bool_decide (is_Some (header w !! "Content-Type")) in
  let w := Header_Set "Location" url w in
  let w := if negb hadCT
              && (String.eqb (req_Method r) "GET"
                  || String.eqb (req_Method r) "HEAD")
           then Header_Set "Content-Type" "text/html; charset=utf-8" w
           else w in
  let w := WriteHeader code w in
  if negb hadCT && String.eqb (req_Method r) "GET"
  then Fprintln w (redirect_body url code)
  else w.

(** ** The server (current revision) *)

(** [ZipServer.archives] holds pointers to [zipFS] objects; the objects live
    in the heap, a list indexed by address that only grows (archives are kept
    open forever). *)
Definition loc : Type := nat.

Record zipFS : Type := {
  ReadCloser : Reader;
  mimeCache : gmap positive string
}.

Record ZipServer : Type := {
  archives : gmap string loc;
  index : string;
  browse : bool
}.

(** [NewZipServer], given the values of the flags [-index] and [-browse]. *)
Definition NewZipServer (index_flag : string) (browse_flag : bool) : ZipServer :=
  {| archives := ∅; index := index_flag; browse := browse_flag |}.

Definition newZipFS (z : Reader) : zipFS :=
  {| ReadCloser := z; mimeCache := ∅ |}.

Definition set_archive (z : ZipServer) (path : string) (zf : loc) : ZipServer :=
  {| archives := <[path := zf]> (archives z);
     index := index z; browse := browse z |}.

(** [getArchive]; the new object is allocated at the end of the heap. *)
Definition getArchive (z : ZipServer) (heap : list zipFS) (path : string)
  : result loc * ZipServer * list zipFS :=
  match archives z !! path with
  | Some zf => (Ok zf, z, heap)
  | None =>
      match zip_OpenReader path with
      | Err err => (Err err, z, heap)
      | Ok rc =>
          let zf := length heap in
          (Ok zf, set_archive z path zf, (heap ++ [newZipFS rc])%list)
      end
  end.

(** The result of [FindRaw]. *)
Record ZipEntry : Type := {
  File : fs_File;
  Entry : option zip_File
}.

(** [FindRaw]: the reflection reads field [e.file] of a handle that has a
    field [e], and field [f] otherwise. *)
Definition FindRaw (z : Reader) (nm : string) : outcome (result ZipEntry) :=
  r ← Reader_Open z nm;
  match r with
  | Err err => Ret (Err err)
  | Ok f =>
      let entry := match f with
                   | openDir e _ _ => file e
                   | checksumReader _ f' => f'
                   end in
      Ret (Ok {| File := f; Entry := entry |})
  end.

(** [GetMime], in the three parts its locking makes: the lookup under the
    read lock, the resolution outside any lock, the store under the write
    lock (the source writes the store out twice, once per way of resolving). *)
Definition mime_lookup (z : zipFS) (f : zip_File) : option string :=
  mimeCache z !! ptr f.

(** The flag tells whether the sniffing ran. *)
Definition mime_resolve (f : zip_File) : outcome (string * bool) :=
  let ctype := mime_TypeByExtension (Ext (Name f)) in
  if negb (String.eqb ctype "") then Ret (ctype, false)
  else
    match File_Open f with
    | Err err => Panic err
    | Ok r =>
        let chunk := take 512 r in
        Ret (sniff.DetectContentType chunk, true)
    end.

Definition mime_store (z : zipFS) (f : zip_File) (ctype : string) : zipFS :=
  {| ReadCloser := ReadCloser z;
     mimeCache := <[ptr f := ctype]> (mimeCache z) |}.

Definition GetMime (z : zipFS) (f : zip_File) : outcome (string * zipFS) :=
  match mime_lookup z f with
  | Some x => Ret (x, z)
  | None =>
      '(ctype, _) ← mime_resolve f;
      Ret (ctype, mime_store z f ctype)
  end.

(** The ten bytes before the payload: ["\x1f\x8b\x08\x00"], the time, and
    ["\x00\xff"]. *)
Definition gzip_magic : bytes := [Byte.x1f; Byte.x8b; Byte.x08; Byte.x00].
Definition gzip_xfl_os : bytes := [Byte.x00; Byte.xff].

Definition accepts_gzip (r : Request) : bool :=
  Contains (Header_Get (req_Header r) "Accept-Encoding") "gzip".

Definition SendFile (z : zipFS) (entry : ZipEntry) (w : ResponseWriter)
    (r : Request) : outcome (ResponseWriter * zipFS) :=
  match Entry entry with
  | None => Panic nil_dereference
  | Some f =>
      let w := Header_Set "Last-Modified" (time_Format (Modified f)) w in
      '(ctype, z) ← GetMime z f;
      let w := Header_Set "Content-Type" ctype w in
      if negb (Z.eqb (Method f) Deflate && accepts_gzip r) then
        Ret (io_Copy w (Read_all (File entry)), z)
      else
        let w := Header_Set "Content-Encoding" "gzip" w in
        let w := Write gzip_magic w in
        let mtime := Unix (Modified f) in
        let w := Write (le32 (uint32 mtime)) w in
        let w := Write gzip_xfl_os w in
        match File_OpenRaw f with
        | Err err => Ret (http_Error w err StatusInternalServerError, z)
        | Ok src =>
            let w := io_Copy w src in
            let w := Write (le32 (CRC32 f)
                            ++ le32 (uint32 (UncompressedSize64 f
                                             mod 0x100000000)))%list w in
            Ret (w, z)
        end
  end.

Definition SendDirectory (z : zipFS) (entry : ZipEntry) (w : ResponseWriter)
    (r : Request) : outcome ResponseWriter :=
  let w := match Entry entry with
           | Some f => Header_Set "Last-Modified" (time_Format (Modified f)) w
           | None => w
           end in
  match File entry with
  | checksumReader _ _ =>
      Panic "interface conversion: not an fs.ReadDirFile"
  | openDir _ files _ =>
      match zip_ReadDir files with
      | Err err => Ret (http_Error w err StatusInternalServerError)
      | Ok entries =>
          let w := Header_Set "content-type" "text/html; charset=utf-8" w in
          Ret (Write (dir_html (URL_Path r) entries) w)
      end
  end.

(** [ServeHTTP] from the canonicalising redirect on (after the index file
    was tried). *)
Definition ServeHTTP_dispatch (zf : zipFS) (entry : ZipEntry) (is_dir : bool)
    (orig_path : string) (w : ResponseWriter) (r : Request)
  : outcome (ResponseWriter * zipFS) :=
  if is_dir && negb (HasSuffix orig_path "/") then
    Ret (http_Redirect w r (URL_Path r ++ "/") StatusMovedPermanently, zf)
  else if HasSuffix orig_path "/" && negb is_dir then
    Ret (http_Error w "not found" StatusNotFound, zf)
  else if is_dir then
    w ← SendDirectory zf entry w r;
    Ret (w, zf)
  else SendFile zf entry w r.

(** The name [ServeHTTP] looks up for [orig_path]. *)
Definition archive_name (orig_path : string) : string :=
  let p := Trim orig_path "/" in
  if String.eqb p "" then "." else p.

(** [ServeHTTP] once the archive [zf] is at hand. *)
Definition ServeHTTP_archive (z : ZipServer) (zf : zipFS) (w : ResponseWriter)
    (r : Request) : outcome (ResponseWriter * zipFS) :=
  let env := ProcessEnv r in
  let orig_path := env_get env "PATH_TRANSLATED" in
  let p := archive_name orig_path in
  found ← FindRaw (ReadCloser zf) p;
  match found with
  | Err err => Ret (http_Error w err StatusNotFound, zf)
  | Ok entry =>
      let is_dir := is_ReadDirFile (File entry) in
      if HasSuffix orig_path "/" && negb (String.eqb (index z) "") && is_dir
      then
        found_index ← FindRaw (ReadCloser zf) (path_Join p (index z));
        match found_index with
        | Err _ => ServeHTTP_dispatch zf entry is_dir orig_path w r
        | Ok index_entry => SendFile zf index_entry w r
        end
      else ServeHTTP_dispatch zf entry is_dir orig_path w r
  end.

(** [ZipServer.ServeHTTP]: the response, the server and the heap after the
    request. *)
Definition ServeHTTP (z : ZipServer) (heap : list zipFS) (w : ResponseWriter)
    (r : Request) : outcome (ResponseWriter * ZipServer * list zipFS) :=
  let env := ProcessEnv r in
  let '(got, z, heap) := getArchive z heap (env_get env "SCRIPT_FILENAME") in
  match got with
  | Err err => Ret (http_Error w err StatusNotFound, z, heap)
  | Ok zl =>
      match heap !! zl with
      | None => Panic nil_dereference
      | Some zf =>
          '(w, zf) ← ServeHTTP_archive z zf w r;
          Ret (w, z, <[zl := zf]> heap)
      end
  end.

End Server.

(** ** The earlier revision, [main.go] *)

Module MainGo.
Section Server.

Context `{GoLibrary}.

(** [zipFS.Find]: the same lookup as [FindRaw], as a method. *)
Definition Find (z : zipFS) (nm : string) : outcome (result ZipEntry) :=
  r ← Reader_Open (ReadCloser z) nm;
  match r with
  | Err err => Ret (Err err)
  | Ok f =>
      let entry := match f with
                   | openDir e _ _ => file e
                   | checksumReader _ f' => f'
                   end in
      Ret (Ok {| File := f; Entry := entry |})
  end.

Definition RespondWith (z : zipFS) (entry : ZipEntry) (w : ResponseWriter)
    (r : Request) : outcome (ResponseWriter * zipFS) :=
  let w := match Entry entry with
           | Some f => Header_Set "Last-Modified" (time_Format (Modified f)) w
           | None => w
           end in
  match File entry with
  | openDir _ files _ =>
      if negb (HasSuffix (URL_Path r) "/") then
        Ret (http_Redirect w r (URL_Path r ++ "/") StatusMovedPermanently, z)
      else
        match zip_ReadDir files with
        | Err err => Ret (http_Error w err StatusInternalServerError, z)
        | Ok entries =>
            let w := Header_Set "content-type" "text/html; charset=utf-8" w in
            Ret (Write (dir_html (URL_Path r) entries) w, z)
        end
  | checksumReader _ _ =>
      match Entry entry with
      | None => Panic "impossible"
      | Some f =>
          '(ctype, z) ← GetMime z f;
          let w := Header_Set "Content-Type" ctype w in
          if Z.eqb (Method f) Deflate && accepts_gzip r then
            let w := Header_Set "Content-Encoding" "gzip" w in
            let w := Write gzip_magic w in
            let mtime := Unix (Modified f) in
            let w := Write (le32 (uint32 mtime)) w in
            let w := Write gzip_xfl_os w in
            match File_OpenRaw f with
            | Err err => Ret (http_Error w err StatusInternalServerError, z)
            | Ok src =>
                let w := io_Copy w src in
                let w := Write (le32 (CRC32 f)
                                ++ le32 (uint32 (UncompressedSize64 f
                                                 mod 0x100000000)))%list w in
                Ret (w, z)
            end
          else Ret (io_Copy w (Read_all (File entry)), z)
      end
  end.

(** The server of this revision holds the registry only. *)
Record ZipServer : Type := {
  archives : gmap string loc
}.

(** [ZipServer.ServeHTTP] of this revision: the registry lookup is written
    out in the handler, and every error is answered with status 500. *)
Definition ServeHTTP (z : ZipServer) (heap : list zipFS) (w : ResponseWriter)
    (r : Request) : outcome (ResponseWriter * ZipServer * list zipFS) :=
  let env := ProcessEnv r in
  let path_to_zipfile := env_get env "SCRIPT_FILENAME" in
  let opened :=
    match archives z !! path_to_zipfile with
    | Some zf => Ok (zf, z, heap)
    | None =>
        match zip_OpenReader path_to_zipfile with
        | Err err => Err err
        | Ok rc =>
            let zf := length heap in
            Ok (zf, {| archives := <[path_to_zipfile := zf]> (archives z) |},
                (heap ++ [newZipFS rc])%list)
        end
    end in
  match opened with
  | Err err => Ret (http_Error w err StatusInternalServerError, z, heap)
  | Ok (zl, z, heap) =>
      match heap !! zl with
      | None => Panic nil_dereference
      | Some zf =>
          let path := Trim (env_get env "PATH_TRANSLATED") "/" in
          let path := if String.eqb path "" then "." else path in
          found ← Find zf path;
          match found with
          | Err err =>
              Ret (http_Error w err StatusInternalServerError, z, heap)
          | Ok entry =>
              '(w, zf) ← RespondWith zf entry w r;
              Ret (w, z, <[zl := zf]> heap)
          end
      end
  end.

End Server.
End MainGo.

(** ** Concurrent requests

    Each request runs in its own goroutine.  The shared maps are touched only
    inside the [sync.RWMutex] sections, so an execution is an interleaving of
    the lock-delimited parts of the calls.  A pool is the shared state and the
    list of threads; a schedule names the thread that runs next. *)

Section Pool.

Context {Sh Th : Type} (step : Sh → Th → Sh * Th).

Definition pool_step (st : Sh * list Th) (i : nat) : Sh * list Th :=
  match st.2 !! i with
  | Some t => let '(sh, t') := step st.1 t in (sh, <[i := t']> st.2)
  | None => st
  end.

Definition run (sched : list nat) (st : Sh * list Th) : Sh * list Th :=
  fold_left pool_step sched st.

End Pool.

Section Threads.

Context `{GoLibrary}.

(** A call of [getArchive], by the point it has reached. *)
Inductive ga_thread : Type :=
| ga_check (path : string)            (* about to take the read lock *)
| ga_open (path : string)             (* found nil, about to open the archive *)
| ga_store (path : string) (zf : loc) (* opened, about to take the write lock *)
| ga_done (r : result loc).           (* returned *)

Definition ga_step (sh : ZipServer * list zipFS) (t : ga_thread)
  : (ZipServer * list zipFS) * ga_thread :=
  let '(z, heap) := sh in
  match t with
  | ga_check path =>
      match archives z !! path with
      | Some zf => (sh, ga_done (Ok zf))
      | None => (sh, ga_open path)
      end
  | ga_open path =>
      match zip_OpenReader path with
      | Err err => (sh, ga_done (Err err))
      | Ok rc => ((z, (heap ++ [newZipFS rc])%list), ga_store path (length heap))
      end
  | ga_store path zf => ((set_archive z path zf, heap), ga_done (Ok zf))
  | ga_done r => (sh, ga_done r)
  end.

(** A call of [GetMime], by the point it has reached.  The shared state is
    the [zipFS] and, as instrumentation, the log of the files the sniffing
    ran on. *)
Inductive gm_thread : Type :=
| gm_lookup (f : zip_File)                  (* about to take the read lock *)
| gm_resolve (f : zip_File)                 (* missed, about to resolve *)
| gm_store (f : zip_File) (ctype : string)  (* about to take the write lock *)
| gm_done (f : zip_File) (x : string)       (* returned [x] *)
| gm_panic (f : zip_File) (msg : string).

Definition gm_step (sh : zipFS * list positive) (t : gm_thread)
  : (zipFS * list positive) * gm_thread :=
  let '(z, sniffed) := sh in
  match t with
  | gm_lookup f =>
      match mime_lookup z f with
      | Some x => (sh, gm_done f x)
      | None => (sh, gm_resolve f)
      end
  | gm_resolve f =>
      match mime_resolve f with
      | Panic msg => (sh, gm_panic f msg)
      | Ret (ctype, ran) =>
          ((z, if ran then ptr f :: sniffed else sniffed), gm_store f ctype)
      end
  | gm_store f ctype => ((mime_store z f ctype, sniffed), gm_done f ctype)
  | gm_done f x => (sh, gm_done f x)
  | gm_panic f msg => (sh, gm_panic f msg)
  end.

(** One call run alone from start to end: three steps of one thread. *)
Definition gm_call (sh : zipFS * list positive) (f : zip_File)
  : (zipFS * list positive) * list gm_thread :=
  run gm_step [0; 0; 0]%nat (sh, [gm_lookup f]).

(** Calls made one after another. *)
Definition gm_calls (sh : zipFS * list positive) (fs : list zip_File)
  : zipFS * list positive :=
  fold_left (fun sh f => (gm_call sh f).1) fs sh.

End Threads.

(** ** A small archive and library instance

    [site.zip] holds [docs/readme.txt], [docs/index.html], [LICENSE], [empty]
    and [docs/broken.txt]; no directory is stored, so [docs] is synthesised.
    The instance implements enough of the abstract library for the paths used
    below. *)

Module Fixture.

Definition mtime : Time := {| Unix := 1700000000; zone_offset := 0 |}.

Definition nl : bytes := [Byte.x0a].

Definition readme : zip_File :=
  {| ptr := 1; Name := "docs/readme.txt"; Method := Deflate;
     Modified := mtime; CRC32 := 0x363a3020; UncompressedSize64 := 6;
     File_Open := Ok (bytes_of_string "hello" ++ nl)%list;
     File_OpenRaw :=
       Ok (sniff.B [0xcb; 0x48; 0xcd; 0xc9; 0xc9; 0xe7; 0x02; 0x00]) |}.

Definition index_html : zip_File :=
  {| ptr := 2; Name := "docs/index.html"; Method := Store;
     Modified := mtime; CRC32 := 0x05abe6de; UncompressedSize64 := 32;
     File_Open :=
       Ok (bytes_of_string "<html><body>index</body></html>" ++ nl)%list;
     File_OpenRaw :=
       Ok (bytes_of_string "<html><body>index</body></html>" ++ nl)%list |}.

Definition license : zip_File :=
  {| ptr := 3; Name := "LICENSE"; Method := Store;
     Modified := mtime; CRC32 := 0x363a3020; UncompressedSize64 := 6;
     File_Open := Ok (bytes_of_string "hello" ++ nl)%list;
     File_OpenRaw := Ok (bytes_of_string "hello" ++ nl)%list |}.

(** A file of no bytes whose name has no extension. *)
Definition empty : zip_File :=
  {| ptr := 4; Name := "empty"; Method := Store;
     Modified := mtime; CRC32 := 0; UncompressedSize64 := 0;
     File_Open := Ok []; File_OpenRaw := Ok [] |}.

(** A deflated file whose raw stream can no longer be opened. *)
Definition broken : zip_File :=
  {| ptr := 5; Name := "docs/broken.txt"; Method := Deflate;
     Modified := mtime; CRC32 := 0x363a3020; UncompressedSize64 := 6;
     File_Open := Ok (bytes_of_string "hello" ++ nl)%list;
     File_OpenRaw := Err "zip: not a valid zip file" |}.

(** A deflated page of another archive, whose raw stream can no longer be
    opened either. *)
Definition broken_page : zip_File :=
  {| ptr := 6; Name := "page.html"; Method := Deflate;
     Modified := mtime; CRC32 := 0x363a3020; UncompressedSize64 := 6;
     File_Open := Ok (bytes_of_string "hello" ++ nl)%list;
     File_OpenRaw := Err "zip: not a valid zip file" |}.

Definition site : Reader :=
  {| Files := [readme; index_html; license; empty; broken] |}.

Definition dotFile : fileListEntry :=
  {| name := "./"; file := None; isDir := true; isDup := false |}.

Definition openLookup (r : Reader) (nm : string) : option fileListEntry :=
  if String.eqb nm "." then Some dotFile
  else
    match find (fun f => String.eqb (Name f) nm) (Files r) with
    | Some f =>
        Some {| name := nm; file := Some f; isDir := false; isDup := false |}
    | None =>
        if existsb (fun f => String.prefix (nm ++ "/") (Name f)) (Files r)
        then Some {| name := nm ++ "/"; file := None; isDir := true;
                     isDup := false |}
        else None
    end.

Definition lib : GoLibrary :=
  {| mime_TypeByExtension ext :=
       if String.eqb ext ".txt" then "text/plain; charset=utf-8"
       else if String.eqb ext ".html" then "text/html; charset=utf-8"
       else "";
     path_Join a b := if String.eqb a "." then b else a ++ "/" ++ b;
     time_Format _ := "Tue, 14 Nov 2023 22:13:20 GMT";
     fs_ValidPath nm :=
       negb (String.eqb nm "") && negb (Contains nm "//")
       && negb (String.prefix "/" nm) && negb (HasSuffix nm "/");
     zip_openLookup := openLookup;
     zip_openReadDir _ _ := [];
     zip_ReadDir l :=
       Ok (map (fun e => {| de_Name := name e; de_IsDir := isDir e |}) l);
     zip_OpenReader path :=
       if String.eqb path "/srv/site.zip" then Ok site
       else Err ("open " ++ path ++ ": no such file or directory");
     dir_html path _ := bytes_of_string ("<h1>" ++ path ++ "</h1>");
     redirect_Location _ url := url;
     redirect_body url _ := "<a href='" ++ url ++ "'>Moved Permanently</a>." |}.

(** A [GET] of [path] inside [/srv/site.zip]. *)
Definition get (path accept : string) : Request :=
  {| req_Method := "GET"; URL_Path := path;
     req_Header := {[ "Accept-Encoding" := accept ]};
     ProcessEnv := <[ "SCRIPT_FILENAME" := "/srv/site.zip" ]>
                     {[ "PATH_TRANSLATED" := path ]} |}.

Definition server : ZipServer := NewZipServer "index.html" true.

Definition zf : zipFS := newZipFS site.

Definition entry_of (f : zip_File) : ZipEntry :=
  {| File := checksumReader (match File_Open f with Ok b => b | Err _ => [] end)
                            (Some f);
     Entry := Some f |}.

(** The synthesised directory [docs], as [FindRaw] returns it. *)
Definition docs_entry : ZipEntry :=
  {| File := openDir {| name := "docs/"; file := None; isDir := true;
                        isDup := false |} [] 0;
     Entry := None |}.

(** The server once [/srv/site.zip] is open, at address 0 of the heap. *)
Definition server1 : ZipServer := set_archive server "/srv/site.zip" 0%nat.

End Fixture.

(** ** Reading a little-endian byte string back *)


(** ** Invariant of concurrent resolutions of one file

    [resolves_to f x]: resolving [f] outside the cache gives [x].  A pool is
    consistent for [f] when the cache holds nothing else for [f] and every
    thread that has resolved [f] holds that value; threads that carry the
    address of [f] carry [f] itself. *)

Definition resolves_to `{GoLibrary} (f : zip_File) (x : string) : Prop :=
  ∃ ran, mime_resolve f = Ret (x, ran).

Definition gm_thread_ok `{GoLibrary} (f : zip_File) (t : gm_thread) : Prop :=
  match t with
  | gm_lookup g | gm_resolve g | gm_panic g _ => ptr g = ptr f → g = f
  | gm_store g c | gm_done g c => ptr g = ptr f → g = f ∧ resolves_to f c
  end.

Definition gm_inv `{GoLibrary} (f : zip_File)
    (st : (zipFS * list positive) * list gm_thread) : Prop :=
  (∀ x, mimeCache st.1.1 !! ptr f = Some x → resolves_to f x)
  ∧ Forall (gm_thread_ok f) st.2.

(** How often the sniffing ran on the file at address [p]. *)
Definition sniff_count (p : positive) (sniffed : list positive) : nat :=
  count_occ Pos.eq_dec sniffed p.

(** ** Invariants of the registry and of the pools *)

(** The heap holds at [zl] an archive that was opened from [path]. *)
Definition holds_archive `{GoLibrary} (heap : list zipFS) (zl : loc)
    (path : string) : Prop :=
  ∃ zf, heap !! zl = Some zf ∧ zip_OpenReader path = Ok (ReadCloser zf).

(** Every registered address holds the archive of its path. *)
Definition registry_ok `{GoLibrary} (archs : gmap string loc)
    (heap : list zipFS) : Prop :=
  ∀ path zl, archs !! path = Some zl → holds_archive heap zl path.


(** 1 for a call of [GetMime] about the file at [p] that has not resolved
    the type yet, 0 for any other. *)
Definition gm_pending (p : positive) (t : gm_thread) : nat :=
  match t with
  | gm_lookup f | gm_resolve f => if decide (ptr f = p) then 1 else 0
  | gm_store _ _ | gm_done _ _ | gm_panic _ _ => 0
  end.

(** 1 for a call of [getArchive] that may still open its archive. *)
Definition ga_pending (t : ga_thread) : nat :=
  match t with
  | ga_check _ | ga_open _ => 1
  | ga_store _ _ | ga_done _ => 0
  end.

(** A call of [getArchive] for [path] is consistent with the heap. *)
Definition ga_thread_ok `{GoLibrary} (heap : list zipFS) (path : string)
    (t : ga_thread) : Prop :=
  match t with
  | ga_check p | ga_open p => p = path
  | ga_store p zl => p = path ∧ holds_archive heap zl path
  | ga_done (Ok zl) => holds_archive heap zl path
  | ga_done (Err err) => zip_OpenReader path = Err err
  end.

(** A call of [getArchive] that is past its lookup works on a path that
    [archs] does not register. *)
Definition ga_fresh (archs : gmap string loc) (t : ga_thread) : Prop :=
  match t with
  | ga_open p | ga_store p _ => archs !! p = None
  | ga_check _ | ga_done _ => True
  end.

(** ** What a client accepts

    The value of [Accept-Encoding] as RFC 9110 (section 12.5.3) reads it: a
    comma-separated list of codings, each with an optional weight [;q=...].
    The names of codings are case-insensitive, [x-gzip] is another name of
    [gzip], a weight of 0 refuses the coding, and [*] stands for the codings
    that are not listed.  The server computes none of this, its test is
    [accepts_gzip]; [rfc_accepts_gzip] is what "the client accepts gzip"
    means, to compare that test with. *)

Fixpoint rfc_split (c : ascii) (l : list ascii) : list (list ascii) :=
  match l with
  | [] => [[]]
  | x :: l' =>
      match rfc_split c l' with
      | [] => [[x]]
      | h :: t => if Ascii.eqb x c then [] :: h :: t else (x :: h) :: t
      end
  end.

Definition rfc_OWS (c : ascii) : bool :=
  Ascii.eqb c " " || Ascii.eqb c (ascii_of_nat 9).

Fixpoint rfc_drop_OWS (l : list ascii) : list ascii :=
  match l with
  | [] => []
  | c :: l' => if rfc_OWS c then rfc_drop_OWS l' else l
  end.

Definition rfc_trim (l : list ascii) : list ascii :=
  rev (rfc_drop_OWS (rev (rfc_drop_OWS l))).

Definition rfc_lower (c : ascii) : ascii :=
  let n := nat_of_ascii c in
  if (65 <=? n)%nat && (n <=? 90)%nat then ascii_of_nat (n + 32) else c.

(** The token of a coding or parameter: trimmed, in lower case. *)
Definition rfc_token (l : list ascii) : string :=
  string_of_list_ascii (map rfc_lower (rfc_trim l)).

(** A weight that is zero: [0], [0.], [0.0], [0.00] or [0.000]. *)
Definition rfc_weight_zero (param : string) : bool :=
  match param with
  | String "q" (String "=" (String "0" rest)) =>
      forallb (fun c => Ascii.eqb c "0" || Ascii.eqb c ".")
        (list_ascii_of_string rest)
  | _ => false
  end.

(** An element of the list: the coding and whether it is refused. *)
Definition rfc_item (item : list ascii) : string * bool :=
  match rfc_split ";" item with
  | [] => ("", false)
  | c :: params =>
      (rfc_token c, existsb (fun p => rfc_weight_zero (rfc_token p)) params)
  end.

Definition rfc_accepts_gzip (value : string) : bool :=
  let items := map rfc_item (rfc_split "," (list_ascii_of_string value)) in
  match find (fun it => String.eqb it.1 "gzip" || String.eqb it.1 "x-gzip")
          items with
  | Some it => negb it.2
  | None =>
      match find (fun it => String.eqb it.1 "*") items with
      | Some it => negb it.2
      | None => false
      end
  end.

(** * Properties *)

(** ** Bytes *)





(** ** The response writer *)

Example CanonicalMIMEHeaderKey_examples :
  CanonicalMIMEHeaderKey "content-type" = "Content-Type"
  ∧ CanonicalMIMEHeaderKey "ACCEPT-encoding" = "Accept-Encoding"
  ∧ CanonicalMIMEHeaderKey "a b" = "a b".
Proof. repeat split; reflexivity. Qed.

Lemma body_WriteHeader code w : body (WriteHeader code w) = body w.
Proof. unfold WriteHeader. destruct (status w); reflexivity. Qed.

Lemma header_WriteHeader code w : header (WriteHeader code w) = header w.
Proof. unfold WriteHeader. destruct (status w); reflexivity. Qed.

Lemma status_WriteHeader code w :
  status (WriteHeader code w) = Some (default code (status w)).
Proof. unfold WriteHeader. destruct (status w) eqn:E; simpl; auto. Qed.

Lemma body_Write p w : body (Write p w) = (body w ++ p)%list.
Proof. unfold Write. simpl. rewrite body_WriteHeader. reflexivity. Qed.

Lemma header_Write p w : header (Write p w) = header w.
Proof. unfold Write. simpl. apply header_WriteHeader. Qed.

Lemma status_Write p w : status (Write p w) = Some (default 200 (status w)).
Proof. unfold Write. simpl. apply status_WriteHeader. Qed.

Lemma body_io_Copy w src : body (io_Copy w src) = (body w ++ src)%list.
Proof.
  unfold io_Copy. destruct src.
  - symmetry. apply app_nil_r.
  - apply body_Write.
Qed.

Lemma header_io_Copy w src : header (io_Copy w src) = header w.
Proof. unfold io_Copy. destruct src; [reflexivity | apply header_Write]. Qed.

Lemma body_http_Error w msg code :
  body (http_Error w msg code)
  = (body w ++ bytes_of_string (msg ++ newline))%list.
Proof.
  unfold http_Error, Fprintln. rewrite body_Write, body_WriteHeader.
  reflexivity.
Qed.

Lemma status_http_Error w msg code :
  status (http_Error w msg code) = Some (default code (status w)).
Proof.
  unfold http_Error, Fprintln. rewrite status_Write, status_WriteHeader.
  simpl. destruct (status w); reflexivity.
Qed.

Lemma header_http_Error_other w msg code key :
  key ≠ "Content-Length" → key ≠ "Content-Type" →
  key ≠ "X-Content-Type-Options" →
  header (http_Error w msg code) !! key = header w !! key.
Proof.
  intros H1 H2 H3. unfold http_Error, Fprintln.
  rewrite header_Write, header_WriteHeader. simpl.
  change (CanonicalMIMEHeaderKey "X-Content-Type-Options")
    with "X-Content-Type-Options".
  change (CanonicalMIMEHeaderKey "Content-Type") with "Content-Type".
  change (CanonicalMIMEHeaderKey "Content-Length") with "Content-Length".
  rewrite !lookup_insert_ne, lookup_delete_ne by congruence. reflexivity.
Qed.

Section Properties.

Context `{GoLibrary}.

(** ** Entries found in an archive *)

(** A handle that is not a directory was opened from its file: the entry
    carries that file, and the handle yields the file's decompressed bytes. *)
Lemma FindRaw_file (rd : Reader) (nm : string) (entry : ZipEntry) :
  FindRaw rd nm = Ret (Ok entry) →
  is_ReadDirFile (File entry) = false →
  ∃ f rc, Entry entry = Some f ∧ File entry = checksumReader rc (Some f)
          ∧ File_Open f = Ok rc.
Proof.
  unfold FindRaw, Reader_Open, zip_File_Open.
  destruct (negb (fs_ValidPath nm)); simpl; [discriminate|].
  destruct (zip_openLookup rd nm) as [e|]; simpl; [|discriminate].
  destruct (isDir e); simpl.
  - intros [= <-]. discriminate.
  - destruct (file e) as [f|]; simpl; [|discriminate].
    destruct (File_Open f) as [rc|err] eqn:E; simpl; [|discriminate].
    intros [= <-] _. exists f, rc. auto.
Qed.

Lemma GetMime_returns (z : zipFS) (f : zip_File) (rc : bytes) :
  File_Open f = Ok rc → ∃ ctype z', GetMime z f = Ret (ctype, z').
Proof.
  intros E. unfold GetMime, mime_resolve.
  destruct (mime_lookup z f); [eauto|].
  destruct (negb _); simpl; [eauto|]. rewrite E. simpl. eauto.
Qed.

(** ** Delivery of a file: [SendFile] *)

(** The whole of [SendFile] on the entry of a file that opens. *)
Lemma SendFile_unfold (z : zipFS) (entry : ZipEntry) (w : ResponseWriter)
    (r : Request) (f : zip_File) (rc : bytes) :
  Entry entry = Some f → File_Open f = Ok rc →
  ∃ ctype z',
    GetMime z f = Ret (ctype, z') ∧
    let w1 := Header_Set "Content-Type" ctype
                (Header_Set "Last-Modified" (time_Format (Modified f)) w) in
    SendFile z entry w r =
    if negb (Z.eqb (Method f) Deflate && accepts_gzip r) then
      Ret (io_Copy w1 (Read_all (File entry)), z')
    else
      let w2 := Write gzip_xfl_os
                  (Write (le32 (uint32 (Unix (Modified f))))
                     (Write gzip_magic
                        (Header_Set "Content-Encoding" "gzip" w1))) in
      match File_OpenRaw f with
      | Err err => Ret (http_Error w2 err StatusInternalServerError, z')
      | Ok src =>
          Ret (Write (le32 (CRC32 f)
                      ++ le32 (uint32 (UncompressedSize64 f mod 0x100000000)))%list
                 (io_Copy w2 src), z')
      end.
Proof.
  intros HE HO. destruct (GetMime_returns z f rc HO) as (ctype & z' & HG).
  exists ctype, z'. split; [exact HG|].
  unfold SendFile. rewrite HE, HG. reflexivity.
Qed.


Lemma header_Set_lookup (key value : string) (w : ResponseWriter) (k : string) :
  header (Header_Set key value w) !! k
  = if decide (CanonicalMIMEHeaderKey key = k) then Some value
    else header w !! k.
Proof. unfold Header_Set. simpl. apply lookup_insert. Qed.

(** The two ways of [SendFile], by the test it makes. *)
Lemma SendFile_mode_accepts (z : zipFS) (rd : Reader) (nm : string)
    (entry : ZipEntry) (w : ResponseWriter) (r : Request) (f : zip_File) :
  FindRaw rd nm = Ret (Ok entry) →
  Entry entry = Some f →
  is_ReadDirFile (File entry) = false →
  header w !! "Content-Encoding" = None →
  ∃ w' z',
    SendFile z entry w r = Ret (w', z')
    ∧ (header w' !! "Content-Encoding" = Some "gzip"
       ↔ Method f = Deflate ∧ accepts_gzip r = true)
    ∧ (Method f = Deflate ∧ accepts_gzip r = true →
       ∃ rest, body w' = (body w ++ [Byte.x1f; Byte.x8b; Byte.x08; Byte.x00]
                          ++ rest)%list)
    ∧ (¬ (Method f = Deflate ∧ accepts_gzip r = true) →
       header w' !! "Content-Encoding" = None
       ∧ ∃ content, File_Open f = Ok content
                    ∧ body w' = (body w ++ content)%list).
Proof.
  intros HF HE Hdir HCE.
  destruct (FindRaw_file rd nm entry HF Hdir) as (f' & rc & HE' & Hh & HO).
  assert (f' = f) as -> by congruence.
  destruct (SendFile_unfold z entry w r f rc HE HO) as (ctype & z' & _ & HS).
  cbv zeta in HS.
  destruct (Z.eqb_spec (Method f) Deflate) as [HM|HM];
    [destruct (accepts_gzip r) eqn:HA|]; simpl in HS.
  - (* deflated and accepted *)
    destruct (File_OpenRaw f) as [src|err]; eexists _, z';
      (split; [exact HS|]); (split; [|split]).
    + split; [auto|intros _].
      rewrite header_Write, header_io_Copy, !header_Write.
      rewrite header_Set_lookup. reflexivity.
    + intros _. eexists.
      rewrite body_Write, body_io_Copy, !body_Write. simpl body.
      unfold gzip_magic. rewrite <- !app_assoc. reflexivity.
    + intros Hn. exfalso. auto.
    + split; [auto|intros _].
      rewrite header_http_Error_other by discriminate.
      rewrite !header_Write, header_Set_lookup. reflexivity.
    + intros _. eexists.
      rewrite body_http_Error, !body_Write. simpl body.
      unfold gzip_magic. rewrite <- !app_assoc. reflexivity.
    + intros Hn. exfalso. auto.
  - (* deflated, not accepted *)
    eexists _, z'. split; [exact HS|].
    assert (Hh' : header (io_Copy
                (Header_Set "Content-Type" ctype
                   (Header_Set "Last-Modified" (time_Format (Modified f)) w))
                (Read_all (File entry))) !! "Content-Encoding" = None).
    { rewrite header_io_Copy, !header_Set_lookup.
      rewrite !decide_False by (vm_compute; discriminate). exact HCE. }
    split; [|split].
    + rewrite Hh'. split; [discriminate|]. intros [_ ?]. discriminate.
    + intros [_ ?]. discriminate.
    + intros _. split; [exact Hh'|]. exists rc. split; [exact HO|].
      rewrite body_io_Copy, Hh. reflexivity.
  - (* not deflated *)
    eexists _, z'. split; [exact HS|].
    assert (Hh' : header (io_Copy
                (Header_Set "Content-Type" ctype
                   (Header_Set "Last-Modified" (time_Format (Modified f)) w))
                (Read_all (File entry))) !! "Content-Encoding" = None).
    { rewrite header_io_Copy, !header_Set_lookup.
      rewrite !decide_False by (vm_compute; discriminate). exact HCE. }
    split; [|split].
    + rewrite Hh'. split; [discriminate|]. intros [? _]. contradiction.
    + intros [? _]. contradiction.
    + intros _. split; [exact Hh'|]. exists rc. split; [exact HO|].
      rewrite body_io_Copy, Hh. reflexivity.
Qed.

(** [strings.HasPrefix] and [strings.Contains] by what they decide. *)
Lemma prefix_app (a s : string) :
  String.prefix a s = true ↔ ∃ post, s = a ++ post.
Proof.
  revert s. induction a as [|c a IH]; intros s.
  - split; [intros _; exists s; reflexivity|]. intros _. by destruct s.
  - destruct s as [|d s]; simpl.
    + split; [discriminate|]. intros [post Hp]. discriminate.
    + destruct (ascii_dec c d) as [->|Hne].
      * rewrite IH. split; intros [post Hp]; exists post.
        -- change (String d s = String d (a ++ post)). by rewrite Hp.
        -- change (String d s = String d (a ++ post)) in Hp. congruence.
      * split; [discriminate|]. intros [post Hp].
        change (String d s = String c (a ++ post)) in Hp. congruence.
Qed.

Lemma Contains_eq (s substr : string) :
  Contains s substr
  = if String.prefix substr s then true
    else match s with
         | EmptyString => false
         | String _ s' => Contains s' substr
         end.
Proof. by destruct s. Qed.

Lemma Contains_substring (s substr : string) :
  Contains s substr = true ↔ ∃ pre post, s = pre ++ substr ++ post.
Proof.
  split.
  - induction s as [|c s IH]; rewrite Contains_eq;
      destruct (String.prefix substr _) eqn:E;
      try (intros _; apply prefix_app in E as [post Hp]; by exists "", post).
    + discriminate.
    + intros Hc. destruct (IH Hc) as (pre & post & ->).
      by exists (String c pre), post.
  - intros (pre & post & ->). induction pre as [|c pre IH].
    + change ("" ++ substr ++ post) with (substr ++ post).
      rewrite Contains_eq.
      replace (String.prefix substr (substr ++ post)) with true; [done|].
      symmetry. apply prefix_app. by exists post.
    + change (String c pre ++ substr ++ post)
        with (String c (pre ++ substr ++ post)).
      rewrite Contains_eq, IH. by destruct (String.prefix _ _).
Qed.

(** C2.  A file entry found in the archive is sent gzip-encoded (the
    response carries [Content-Encoding: gzip] and its body starts with the
    gzip magic) exactly when the entry is stored deflated and the string
    [gzip], in these letters, occurs somewhere in the value of the request's
    [Accept-Encoding] header (the first value, the empty string when there is
    none); otherwise the decompressed bytes are copied to the body and no
    [Content-Encoding] is set. *)
Theorem SendFile_mode (z : zipFS) (rd : Reader) (nm : string)
    (entry : ZipEntry) (w : ResponseWriter) (r : Request) (f : zip_File) :
  let passthrough :=
    Method f = Deflate
    ∧ ∃ pre post,
        Header_Get (req_Header r) "Accept-Encoding" = pre ++ "gzip" ++ post in
  FindRaw rd nm = Ret (Ok entry) →
  Entry entry = Some f →
  is_ReadDirFile (File entry) = false →
  header w !! "Content-Encoding" = None →
  ∃ w' z',
    SendFile z entry w r = Ret (w', z')
    ∧ (header w' !! "Content-Encoding" = Some "gzip" ↔ passthrough)
    ∧ (passthrough →
       ∃ rest, body w' = (body w ++ [Byte.x1f; Byte.x8b; Byte.x08; Byte.x00]
                          ++ rest)%list)
    ∧ (¬ passthrough →
       header w' !! "Content-Encoding" = None
       ∧ ∃ content, File_Open f = Ok content
                    ∧ body w' = (body w ++ content)%list).
Proof.
  intros passthrough HF HE Hdir HCE.
  assert (Hp : passthrough ↔ Method f = Deflate ∧ accepts_gzip r = true).
  { unfold passthrough, accepts_gzip. by rewrite Contains_substring. }
  destruct (SendFile_mode_accepts z rd nm entry w r f HF HE Hdir HCE)
    as (w' & z' & HS & Hiff & Hgz & Hplain).
  exists w', z'. split; [exact HS|]. split; [|split].
  - by rewrite Hp.
  - intros Hpt. apply Hgz, Hp, Hpt.
  - intros Hn. apply Hplain. intros Hpt. apply Hn, Hp, Hpt.
Qed.

(** ** Routing: [ServeHTTP] *)

Lemma getArchive_index (z : ZipServer) (heap : list zipFS) (path : string) :
  index (getArchive z heap path).1.2 = index z.
Proof.
  unfold getArchive. destruct (archives z !! path); [reflexivity|].
  destruct (zip_OpenReader path); reflexivity.
Qed.



(** [ServeHTTP] is [ServeHTTP_archive] on the archive [getArchive] gave. *)
Lemma ServeHTTP_unfold z heap w r zl z' heap' zf :
  getArchive z heap (env_get (ProcessEnv r) "SCRIPT_FILENAME")
    = (Ok zl, z', heap') →
  heap' !! zl = Some zf →
  ServeHTTP z heap w r
  = '(w', zf') ← ServeHTTP_archive z' zf w r; Ret (w', z', <[zl := zf']> heap').
Proof. intros HG HL. unfold ServeHTTP. rewrite HG, HL. reflexivity. Qed.


(** The earlier revision redirects in the same way, testing the URL path
    itself. *)
Lemma RespondWith_directory_redirect (z : zipFS) (entry : ZipEntry)
    (w : ResponseWriter) (r : Request) :
  is_ReadDirFile (File entry) = true →
  HasSuffix (URL_Path r) "/" = false →
  ∃ w1, header w1 !! "Location" = header w !! "Location"
        ∧ status w1 = status w ∧ body w1 = body w
        ∧ MainGo.RespondWith z entry w r
          = Ret (http_Redirect w1 r (URL_Path r ++ "/") StatusMovedPermanently,
                 z).
Proof.
  intros Hdir HS. unfold MainGo.RespondWith.
  destruct (File entry); [|discriminate]. rewrite HS. simpl.
  eexists. split; [|split; [|split; [|reflexivity]]].
  - destruct (Entry entry); [|reflexivity].
    rewrite header_Set_lookup. reflexivity.
  - destruct (Entry entry); reflexivity.
  - destruct (Entry entry); reflexivity.
Qed.

(** The bytes [SendFile] appends for the entry of a file that opens: the
    decompressed bytes, or the gzip frame around the raw payload (around the
    text of the error when the raw stream does not open). *)
Lemma SendFile_body (z : zipFS) (entry : ZipEntry) (w : ResponseWriter)
    (r : Request) (f : zip_File) (content : bytes) :
  Entry entry = Some f → File_Open f = Ok content →
  Read_all (File entry) = content →
  ∃ w' z' ctype,
    GetMime z f = Ret (ctype, z')
    ∧ SendFile z entry w r = Ret (w', z')
    ∧ body w'
      = (body w
         ++ if Z.eqb (Method f) Deflate && accepts_gzip r then
              [Byte.x1f; Byte.x8b; Byte.x08; Byte.x00]
              ++ le32 (uint32 (Unix (Modified f))) ++ [Byte.x00; Byte.xff]
              ++ match File_OpenRaw f with
                 | Ok src =>
                     src ++ le32 (CRC32 f)
                     ++ le32 (uint32 (UncompressedSize64 f mod 0x100000000))
                 | Err err => bytes_of_string (err ++ newline)
                 end
            else content)%list.
Proof.
  intros HE HO HR.
  destruct (SendFile_unfold z entry w r f content HE HO)
    as (ctype & z' & HG & HS).
  cbv zeta in HS.
  destruct (Z.eqb (Method f) Deflate && accepts_gzip r); simpl in HS.
  - destruct (File_OpenRaw f) as [src|err]; eexists _, z', ctype;
      (split; [exact HG|]); (split; [exact HS|]).
    + rewrite body_Write, body_io_Copy, !body_Write. simpl body.
      unfold gzip_magic, gzip_xfl_os. rewrite <- !app_assoc. reflexivity.
    + rewrite body_http_Error, !body_Write. simpl body.
      unfold gzip_magic, gzip_xfl_os. rewrite <- !app_assoc. reflexivity.
  - eexists _, z', ctype. split; [exact HG|]. split; [exact HS|].
    rewrite body_io_Copy, HR. reflexivity.
Qed.

(** C4.  A request whose path ends in a slash and names a directory, served
    with an index file name configured: when the directory's path joined with
    that name is found in the archive and is a file, the response is the one
    [SendFile] gives for that file, and its body is the content of that file
    and no listing: the decompressed bytes of the file, or, for a deflated
    file requested with gzip in [Accept-Encoding], the gzip frame around its
    raw payload (around the text of the error if the raw stream does not
    open).  The type cached is the one of the index file. *)
Theorem ServeHTTP_index_file (z z' : ZipServer) (heap heap' : list zipFS)
    (w : ResponseWriter) (r : Request) (zl : loc) (zf : zipFS)
    (entry index_entry : ZipEntry) :
  let orig_path := env_get (ProcessEnv r) "PATH_TRANSLATED" in
  getArchive z heap (env_get (ProcessEnv r) "SCRIPT_FILENAME")
    = (Ok zl, z', heap') →
  heap' !! zl = Some zf →
  HasSuffix orig_path "/" = true →
  FindRaw (ReadCloser zf) (archive_name orig_path) = Ret (Ok entry) →
  is_ReadDirFile (File entry) = true →
  index z ≠ "" →
  FindRaw (ReadCloser zf) (path_Join (archive_name orig_path) (index z))
    = Ret (Ok index_entry) →
  is_ReadDirFile (File index_entry) = false →
  ∃ w' zf' f content ctype,
    Entry index_entry = Some f
    ∧ File_Open f = Ok content
    ∧ GetMime zf f = Ret (ctype, zf')
    ∧ SendFile zf index_entry w r = Ret (w', zf')
    ∧ ServeHTTP z heap w r = Ret (w', z', <[zl := zf']> heap')
    ∧ body w'
      = (body w
         ++ if Z.eqb (Method f) Deflate && accepts_gzip r then
              [Byte.x1f; Byte.x8b; Byte.x08; Byte.x00]
              ++ le32 (uint32 (Unix (Modified f))) ++ [Byte.x00; Byte.xff]
              ++ match File_OpenRaw f with
                 | Ok src =>
                     src ++ le32 (CRC32 f)
                     ++ le32 (uint32 (UncompressedSize64 f mod 0x100000000))
                 | Err err => bytes_of_string (err ++ newline)
                 end
            else content)%list.
Proof.
  intros orig_path HG HL HS HF Hdir Hidx HFi Hfile.
  destruct (FindRaw_file _ _ _ HFi Hfile) as (f & rc & HE & HR & HO).
  assert (HRd : Read_all (File index_entry) = rc) by (by rewrite HR).
  destruct (SendFile_body zf index_entry w r f rc HE HO HRd)
    as (w' & zf' & ctype & HGM & Hret & Hbody).
  exists w', zf', f, rc, ctype.
  split; [exact HE|]. split; [exact HO|]. split; [exact HGM|].
  split; [exact Hret|]. split; [|exact Hbody].
  rewrite (ServeHTTP_unfold z heap w r zl z' heap' zf HG HL).
  unfold ServeHTTP_archive. fold orig_path. cbv zeta. rewrite HF. simpl.
  assert (Hi : index z' = index z).
  { pose proof (getArchive_index z heap
                  (env_get (ProcessEnv r) "SCRIPT_FILENAME")) as Hi.
    rewrite HG in Hi. exact Hi. }
  rewrite Hi, Hdir, HS.
  destruct (String.eqb_spec (index z) "") as [?|_]; [contradiction|]. simpl.
  rewrite HFi. simpl. rewrite Hret. reflexivity.
Qed.

(** C5.  A request whose path ends in a slash but names a file of the
    archive is answered by [http.Error] with the text [not found] and status
    404: the call returns (it does not panic), no file is sent, and server and
    heap are as [getArchive] left them. *)
Theorem ServeHTTP_file_trailing_slash (z z' : ZipServer)
    (heap heap' : list zipFS) (w : ResponseWriter) (r : Request) (zl : loc)
    (zf : zipFS) (entry : ZipEntry) :
  let orig_path := env_get (ProcessEnv r) "PATH_TRANSLATED" in
  getArchive z heap (env_get (ProcessEnv r) "SCRIPT_FILENAME")
    = (Ok zl, z', heap') →
  heap' !! zl = Some zf →
  HasSuffix orig_path "/" = true →
  FindRaw (ReadCloser zf) (archive_name orig_path) = Ret (Ok entry) →
  is_ReadDirFile (File entry) = false →
  let w' := http_Error w "not found" StatusNotFound in
  ServeHTTP z heap w r = Ret (w', z', heap')
  ∧ (status w = None → status w' = Some 404)
  ∧ body w' = (body w ++ bytes_of_string ("not found" ++ newline))%list.
Proof.
  intros orig_path HG HL HS HF Hfile w'. split; [|split].
  - rewrite (ServeHTTP_unfold z heap w r zl z' heap' zf HG HL).
    unfold ServeHTTP_archive. fold orig_path. cbv zeta. rewrite HF. simpl.
    rewrite Hfile, HS, andb_false_r.
    unfold ServeHTTP_dispatch. rewrite HS. simpl.
    rewrite list_insert_id by exact HL. reflexivity.
  - intros Hw. unfold w'. rewrite status_http_Error, Hw. reflexivity.
  - apply body_http_Error.
Qed.

(** ** Content types: [GetMime] *)

Lemma first_match_none (sigs : list sniff.sniffSig) (data : bytes) (n : nat) :
  Forall (fun sig => sniff.sig_match sig data n = "") sigs →
  sniff.first_match sigs data n = "application/octet-stream".
Proof.
  induction 1 as [|sig sigs Hsig _ IH]; simpl; [reflexivity|].
  rewrite Hsig. simpl. exact IH.
Qed.

Lemma DetectContentType_no_match (data : bytes) :
  Forall (fun sig => sniff.sig_match sig (take 512 data)
                       (sniff.firstNonWS_of (take 512 data)) = "")
         sniff.sniffSignatures →
  sniff.DetectContentType data = "application/octet-stream".
Proof. intros Hn. unfold sniff.DetectContentType. apply first_match_none, Hn. Qed.

Lemma DetectContentType_empty :
  sniff.DetectContentType [] = "text/plain; charset=utf-8".
Proof. vm_compute. reflexivity. Qed.

(** C6, amended.  For an entry not yet in the cache the type is looked up by
    the extension of the name first, and only when the table gives nothing is
    the file opened and sniffed.  The sniffing reads at most the first 512
    decompressed bytes; it gives the generic binary type when no signature
    matches them, and [text/plain; charset=utf-8] when there are no bytes. *)
Theorem GetMime_resolution_order (z : zipFS) (f : zip_File) :
  mime_lookup z f = None →
  let by_ext := mime_TypeByExtension (Ext (Name f)) in
  (by_ext ≠ "" →
   mime_resolve f = Ret (by_ext, false)
   ∧ GetMime z f = Ret (by_ext, mime_store z f by_ext))
  ∧ (by_ext = "" → ∀ content, File_Open f = Ok content →
     let chunk := take 512 content in
     let sniffed := sniff.DetectContentType chunk in
     mime_resolve f = Ret (sniffed, true)
     ∧ GetMime z f = Ret (sniffed, mime_store z f sniffed)
     ∧ (Forall (fun sig => sniff.sig_match sig chunk
                             (sniff.firstNonWS_of chunk) = "")
               sniff.sniffSignatures →
        sniffed = "application/octet-stream")
     ∧ (content = [] → sniffed = "text/plain; charset=utf-8")).
Proof.
  intros HL by_ext. split.
  - intros Hne.
    assert (HR : mime_resolve f = Ret (by_ext, false)).
    { unfold mime_resolve. fold by_ext.
      destruct (String.eqb_spec by_ext ""); [contradiction|reflexivity]. }
    split; [exact HR|]. unfold GetMime. rewrite HL, HR. reflexivity.
  - intros He content HO chunk sniffed.
    assert (HR : mime_resolve f = Ret (sniffed, true)).
    { unfold mime_resolve. fold by_ext. rewrite He, HO. reflexivity. }
    split; [exact HR|]. split; [|split].
    + unfold GetMime. rewrite HL, HR. reflexivity.
    + intros Hn. apply DetectContentType_no_match.
      unfold chunk in *. rewrite take_take, Nat.min_id. exact Hn.
    + intros ->. apply DetectContentType_empty.
Qed.

(** ** The file behind an entry *)

(** [SendFile] dereferences the file pointer at once. *)
Lemma SendFile_nil_entry (z : zipFS) (entry : ZipEntry) (w : ResponseWriter)
    (r : Request) :
  Entry entry = None → SendFile z entry w r = Panic nil_dereference.
Proof. intros E. unfold SendFile. rewrite E. reflexivity. Qed.

Lemma Find_FindRaw (z : zipFS) (nm : string) :
  MainGo.Find z nm = FindRaw (ReadCloser z) nm.
Proof. reflexivity. Qed.


(** ** Memoisation: [GetMime] under concurrent and successive calls *)

Lemma resolves_to_unique (f : zip_File) (x y : string) :
  resolves_to f x → resolves_to f y → x = y.
Proof. intros [a Ha] [b Hb]. congruence. Qed.

Lemma gm_step_ok (f : zip_File) (sh : zipFS * list positive) (t : gm_thread) :
  (∀ x, mimeCache sh.1 !! ptr f = Some x → resolves_to f x) →
  gm_thread_ok f t →
  (∀ x, mimeCache (gm_step sh t).1.1 !! ptr f = Some x → resolves_to f x)
  ∧ gm_thread_ok f (gm_step sh t).2
  ∧ (∀ x, mimeCache sh.1 !! ptr f = Some x →
          mimeCache (gm_step sh t).1.1 !! ptr f = Some x).
Proof.
  destruct sh as [z sniffed]. intros Hc Ht.
  destruct t as [g|g|g c|g x|g msg]; simpl in *.
  - unfold mime_lookup. destruct (mimeCache z !! ptr g) as [x|] eqn:E; simpl.
    + split; [exact Hc|]. split; [|auto].
      intros Hp. specialize (Ht Hp). subst g. split; [reflexivity|].
      apply Hc. exact E.
    + auto.
  - destruct (mime_resolve g) as [[c ran]|msg] eqn:E; simpl.
    + split; [exact Hc|]. split; [|auto].
      intros Hp. specialize (Ht Hp). subst g. split; [reflexivity|].
      exists ran. exact E.
    + auto.
  - split; [|split].
    + intros x. rewrite lookup_insert. case_decide as Hp.
      * intros [= <-]. apply Ht. exact Hp.
      * apply Hc.
    + exact Ht.
    + intros x Hx. rewrite lookup_insert. case_decide as Hp; [|exact Hx].
      f_equal. apply (resolves_to_unique f); [apply Ht, Hp | apply Hc, Hx].
  - auto.
  - auto.
Qed.

Lemma pool_step_inv (f : zip_File) st (i : nat) :
  gm_inv f st →
  gm_inv f (pool_step gm_step st i)
  ∧ (∀ x, mimeCache st.1.1 !! ptr f = Some x →
          mimeCache (pool_step gm_step st i).1.1 !! ptr f = Some x).
Proof.
  destruct st as [sh ts]. intros [Hc Hts]. unfold pool_step. simpl in *.
  destruct (ts !! i) as [t|] eqn:E; [|split; [split|]; auto].
  assert (Ht : gm_thread_ok f t).
  { rewrite Forall_forall in Hts. apply Hts.
    apply list_elem_of_lookup. eauto. }
  destruct (gm_step_ok f sh t Hc Ht) as (Hc' & Ht' & Hm).
  destruct (gm_step sh t) as [sh' t']. simpl in *.
  split; [split|]; simpl; auto.
  apply Forall_insert; assumption.
Qed.

Lemma run_inv (f : zip_File) (sched : list nat) st :
  gm_inv f st →
  gm_inv f (run gm_step sched st)
  ∧ (∀ x, mimeCache st.1.1 !! ptr f = Some x →
          mimeCache (run gm_step sched st).1.1 !! ptr f = Some x).
Proof.
  revert st. induction sched as [|i sched IH]; intros st Hinv; simpl.
  - auto.
  - destruct (pool_step_inv f st i Hinv) as [Hinv' Hm].
    destruct (IH _ Hinv') as [Hinv'' Hm'].
    split; [exact Hinv''|]. intros x Hx. apply Hm', Hm, Hx.
Qed.

Lemma gm_inv_init (f : zip_File) (z0 : zipFS) (fs : list zip_File) :
  mimeCache z0 !! ptr f = None →
  (∀ g, g ∈ fs → ptr g = ptr f → g = f) →
  gm_inv f ((z0, []), gm_lookup <$> fs).
Proof.
  intros Hz Hfs. split; simpl.
  - intros x Hx. congruence.
  - apply Forall_fmap, Forall_forall. intros g Hg. simpl.
    apply Hfs, Hg.
Qed.

(** A call run alone does what [GetMime] does. *)
Lemma gm_call_spec (z : zipFS) (sniffed : list positive) (g : zip_File) :
  gm_call (z, sniffed) g =
  match mime_lookup z g with
  | Some x => ((z, sniffed), [gm_done g x])
  | None =>
      match mime_resolve g with
      | Panic msg => ((z, sniffed), [gm_panic g msg])
      | Ret (c, ran) =>
          ((mime_store z g c, if ran then ptr g :: sniffed else sniffed),
           [gm_done g c])
      end
  end.
Proof.
  unfold gm_call, run, pool_step. simpl.
  destruct (mime_lookup z g); simpl; [reflexivity|].
  destruct (mime_resolve g) as [[c ran]|]; reflexivity.
Qed.

Lemma gm_call_GetMime (z : zipFS) (sniffed : list positive) (g : zip_File) :
  match GetMime z g with
  | Ret (x, z') => ∃ sn, gm_call (z, sniffed) g = ((z', sn), [gm_done g x])
  | Panic msg => gm_call (z, sniffed) g = ((z, sniffed), [gm_panic g msg])
  end.
Proof.
  rewrite gm_call_spec. unfold GetMime.
  destruct (mime_lookup z g); simpl; [eauto|].
  destruct (mime_resolve g) as [[c ran]|]; simpl; eauto.
Qed.

Lemma gm_calls_sniff_once (f : zip_File) (fs : list zip_File) (z : zipFS)
    (sniffed : list positive) :
  (∀ g, g ∈ fs → ptr g = ptr f → g = f) →
  (mimeCache z !! ptr f = None → sniff_count (ptr f) sniffed = 0%nat) →
  (sniff_count (ptr f) sniffed ≤ 1)%nat →
  (sniff_count (ptr f) (gm_calls (z, sniffed) fs).2 ≤ 1)%nat.
Proof.
  revert z sniffed. induction fs as [|g fs IH]; intros z sniffed Hfs H0 H1.
  - exact H1.
  - unfold gm_calls. simpl. fold (gm_calls (gm_call (z, sniffed) g).1 fs).
    assert (Hfs' : ∀ g', g' ∈ fs → ptr g' = ptr f → g' = f)
      by (intros g' Hg'; apply Hfs; right; exact Hg').
    rewrite gm_call_spec. unfold mime_lookup.
    destruct (mimeCache z !! ptr g) as [x|] eqn:EL; simpl.
    { apply IH; assumption. }
    destruct (mime_resolve g) as [[c ran]|msg] eqn:ER; simpl.
    2: { apply IH; assumption. }
    destruct (decide (ptr g = ptr f)) as [Hp|Hp].
    + (* the first resolution of [f] *)
      rewrite Hp in EL. specialize (H0 EL).
      apply IH; [exact Hfs'| |].
      * simpl. rewrite Hp, lookup_insert_eq. discriminate.
      * unfold sniff_count in *. destruct ran; simpl; [|lia].
        destruct (Pos.eq_dec (ptr g) (ptr f)); lia.
    + (* another file *)
      assert (Hc : sniff_count (ptr f)
                     (if ran then ptr g :: sniffed else sniffed)
                   = sniff_count (ptr f) sniffed).
      { unfold sniff_count. destruct ran; [|reflexivity]. simpl.
        destruct (Pos.eq_dec (ptr g) (ptr f)); [contradiction|reflexivity]. }
      apply IH; [exact Hfs'| |].
      * simpl. rewrite lookup_insert_ne by exact Hp. rewrite Hc. exact H0.
      * rewrite Hc. exact H1.
Qed.

(** C7, amended.  Starting with no cached type for [f], whatever the
    interleaving of any number of calls of [GetMime]: all calls that return
    for [f] return the same string, and a type cached for [f] stays the same
    in every later state.  When the calls are made one after another the
    sniffing runs at most once on [f]. *)
Theorem GetMime_memoized (z0 : zipFS) (fs : list zip_File) (f : zip_File) :
  mimeCache z0 !! ptr f = None →
  (∀ g, g ∈ fs → ptr g = ptr f → g = f) →
  (∀ sched,
     let st := run gm_step sched ((z0, []), gm_lookup <$> fs) in
     (∀ i j x y, st.2 !! i = Some (gm_done f x) →
                 st.2 !! j = Some (gm_done f y) → x = y)
     ∧ (∀ x sched', mimeCache st.1.1 !! ptr f = Some x →
                    mimeCache (run gm_step sched' st).1.1 !! ptr f = Some x))
  ∧ (sniff_count (ptr f) (gm_calls (z0, []) fs).2 ≤ 1)%nat.
Proof.
  intros Hz Hfs. split.
  - intros sched st.
    destruct (run_inv f sched _ (gm_inv_init f z0 fs Hz Hfs)) as [Hinv _].
    fold st in Hinv. split.
    + intros i j x y Hi Hj. destruct Hinv as [_ Hts].
      rewrite Forall_forall in Hts.
      assert (Hx : gm_thread_ok f (gm_done f x))
        by (apply Hts, list_elem_of_lookup; eauto).
      assert (Hy : gm_thread_ok f (gm_done f y))
        by (apply Hts, list_elem_of_lookup; eauto).
      simpl in Hx, Hy.
      apply (resolves_to_unique f); [apply Hx | apply Hy]; reflexivity.
    + intros x sched' Hx. apply (run_inv f sched' st Hinv), Hx.
  - apply gm_calls_sniff_once; [exact Hfs| |]; unfold sniff_count; simpl; lia.
Qed.

(** A raw stream that fails to open is noticed only after the gzip header
    went out: the ten header bytes precede the error text, and the status,
    already written with the first byte, is not the error's. *)
Lemma SendFile_raw_open_failure (z : zipFS) (entry : ZipEntry)
    (w : ResponseWriter) (r : Request) (f : zip_File) (rc : bytes)
    (err : string) :
  Entry entry = Some f → File_Open f = Ok rc →
  Method f = Deflate → accepts_gzip r = true →
  File_OpenRaw f = Err err →
  ∃ w' z',
    SendFile z entry w r = Ret (w', z')
    ∧ status w' = Some (default 200 (status w))
    ∧ body w' = (body w ++ gzip_magic ++ le32 (uint32 (Unix (Modified f)))
                 ++ gzip_xfl_os ++ bytes_of_string (err ++ newline))%list.
Proof.
  intros HE HO HM HA HR.
  destruct (SendFile_unfold z entry w r f rc HE HO) as (ctype & z' & _ & HS).
  cbv zeta in HS. rewrite HM, HA, HR in HS. simpl negb in HS. cbv iota in HS.
  eexists _, z'. split; [exact HS|]. split.
  - rewrite status_http_Error, !status_Write. simpl.
    destruct (status w); reflexivity.
  - rewrite body_http_Error, !body_Write. simpl body.
    rewrite <- !app_assoc. reflexivity.
Qed.

(** ** The registry: [getArchive] *)

(** A call run alone does what [getArchive] does. *)
Lemma ga_alone (z : ZipServer) (heap : list zipFS) (path : string) :
  run ga_step [0; 0; 0]%nat ((z, heap), [ga_check path])
  = let '(r, z', heap') := getArchive z heap path in
    ((z', heap'), [ga_done r]).
Proof.
  unfold run, pool_step, getArchive. simpl.
  destruct (archives z !! path); simpl; [reflexivity|].
  destruct (zip_OpenReader path); reflexivity.
Qed.

(** Once an archive is in the registry it is returned without being opened
    again: server and heap are unchanged. *)
Lemma getArchive_cached (z : ZipServer) (heap : list zipFS) (path : string)
    (zf : loc) :
  archives z !! path = Some zf →
  getArchive z heap path = (Ok zf, z, heap).
Proof. intros E. unfold getArchive. rewrite E. reflexivity. Qed.

(** After a first successful call the archive is in the registry. *)
Lemma getArchive_stores (z z' : ZipServer) (heap heap' : list zipFS)
    (path : string) (zf : loc) :
  getArchive z heap path = (Ok zf, z', heap') →
  archives z' !! path = Some zf.
Proof.
  unfold getArchive. destruct (archives z !! path) as [l|] eqn:E.
  - intros [= <- <- <-]. exact E.
  - destruct (zip_OpenReader path); [|discriminate].
    intros [= <- <- <-]. simpl. apply lookup_insert_eq.
Qed.

End Properties.

(** * The properties at the archive [site.zip] *)


(** C2 as claimed fails at [docs/readme.txt], which is stored deflated.
    [Accept-Encoding: gzip;q=0] refuses gzip, and the file is sent
    gzip-encoded; [Accept-Encoding: GZIP] accepts it, and the file is sent
    decompressed. *)
Lemma SendFile_mode_not_what_the_client_accepts :
  (rfc_accepts_gzip "gzip;q=0" = false
   ∧ ∃ w' z',
       SendFile (H := Fixture.lib) Fixture.zf (Fixture.entry_of Fixture.readme)
         new_ResponseWriter (Fixture.get "/docs/readme.txt" "gzip;q=0")
       = Ret (w', z')
       ∧ header w' !! "Content-Encoding" = Some "gzip"
       ∧ take 4 (body w') = [Byte.x1f; Byte.x8b; Byte.x08; Byte.x00])
  ∧ (rfc_accepts_gzip "GZIP" = true
     ∧ Method Fixture.readme = Deflate
     ∧ ∃ w' z',
         SendFile (H := Fixture.lib) Fixture.zf
           (Fixture.entry_of Fixture.readme)
           new_ResponseWriter (Fixture.get "/docs/readme.txt" "GZIP")
         = Ret (w', z')
         ∧ header w' !! "Content-Encoding" = None
         ∧ body w' = (bytes_of_string "hello" ++ Fixture.nl)%list).
Proof.
  split; (split; [reflexivity|]).
  - eexists _, _. split; [vm_compute; reflexivity|].
    split; vm_compute; reflexivity.
  - split; [reflexivity|]. eexists _, _. split; [vm_compute; reflexivity|].
    split; vm_compute; reflexivity.
Qed.

(** C2 at [docs/readme.txt], stored deflated and requested with
    [Accept-Encoding: deflate, gzip;q=0.5]: sent gzip-encoded; and at
    [LICENSE], stored uncompressed: sent as it is. *)
Lemma SendFile_mode_witness :
  (∃ w' z',
     SendFile (H := Fixture.lib) Fixture.zf (Fixture.entry_of Fixture.readme)
       new_ResponseWriter
       (Fixture.get "/docs/readme.txt" "deflate, gzip;q=0.5")
     = Ret (w', z')
     ∧ header w' !! "Content-Encoding" = Some "gzip"
     ∧ ∃ rest, body w' = ([] ++ [Byte.x1f; Byte.x8b; Byte.x08; Byte.x00]
                          ++ rest)%list)
  ∧ (∃ w' z',
       SendFile (H := Fixture.lib) Fixture.zf
         (Fixture.entry_of Fixture.license)
         new_ResponseWriter (Fixture.get "/LICENSE" "deflate, gzip;q=0.5")
       = Ret (w', z')
       ∧ header w' !! "Content-Encoding" = None
       ∧ body w' = (bytes_of_string "hello" ++ Fixture.nl)%list).
Proof.
  split.
  - destruct (SendFile_mode (H := Fixture.lib) Fixture.zf Fixture.site
                "docs/readme.txt" (Fixture.entry_of Fixture.readme)
                new_ResponseWriter
                (Fixture.get "/docs/readme.txt" "deflate, gzip;q=0.5")
                Fixture.readme)
      as (w' & z' & HS & Hiff & Hgz & _);
      [vm_compute; reflexivity ..|].
    assert (Hp : Method Fixture.readme = Deflate
                 ∧ ∃ pre post,
                     Header_Get
                       (req_Header
                          (Fixture.get "/docs/readme.txt" "deflate, gzip;q=0.5"))
                       "Accept-Encoding" = pre ++ "gzip" ++ post).
    { split; [reflexivity|]. exists "deflate, ", ";q=0.5".
      vm_compute. reflexivity. }
    exists w', z'. split; [exact HS|]. split; [apply Hiff, Hp|apply Hgz, Hp].
  - destruct (SendFile_mode (H := Fixture.lib) Fixture.zf Fixture.site
                "LICENSE" (Fixture.entry_of Fixture.license)
                new_ResponseWriter
                (Fixture.get "/LICENSE" "deflate, gzip;q=0.5") Fixture.license)
      as (w' & z' & HS & _ & _ & Hplain);
      [vm_compute; reflexivity ..|].
    exists w', z'. split; [exact HS|].
    destruct Hplain as (Hh & content & HO & Hb).
    + intros [HM _]. vm_compute in HM. discriminate.
    + split; [exact Hh|]. vm_compute in HO. injection HO as <-. exact Hb.
Defined.


(** C4 at [/docs/], with [index.html] as the index file: the body is the
    page, its type is the one of the page, and the type is cached. *)
Lemma ServeHTTP_index_file_witness :
  ∃ w' zf',
    ServeHTTP (H := Fixture.lib) Fixture.server [] new_ResponseWriter
      (Fixture.get "/docs/" "gzip")
    = Ret (w', Fixture.server1, [zf'])
    ∧ GetMime (H := Fixture.lib) Fixture.zf Fixture.index_html
      = Ret ("text/html; charset=utf-8", zf')
    ∧ body w'
      = (bytes_of_string "<html><body>index</body></html>" ++ Fixture.nl)%list.
Proof.
  destruct (ServeHTTP_index_file (H := Fixture.lib) Fixture.server
              Fixture.server1 [] [Fixture.zf] new_ResponseWriter
              (Fixture.get "/docs/" "gzip") 0%nat Fixture.zf Fixture.docs_entry
              (Fixture.entry_of Fixture.index_html))
    as (w' & zf' & f & content & ctype & HE & HO & HGM & _ & HS & Hb);
    [vm_compute; solve [reflexivity | discriminate] ..|].
  injection HE as <-. vm_compute in HO. injection HO as <-.
  assert (Hc : ctype = "text/html; charset=utf-8").
  { vm_compute in HGM. by injection HGM as <- _. }
  subst ctype. exists w', zf'. split; [exact HS|]. split; [exact HGM|].
  exact Hb.
Defined.

(** C5 at [/docs/readme.txt/]. *)
Lemma ServeHTTP_file_trailing_slash_witness :
  ∃ w',
    ServeHTTP (H := Fixture.lib) Fixture.server [] new_ResponseWriter
      (Fixture.get "/docs/readme.txt/" "gzip")
    = Ret (w', Fixture.server1, [Fixture.zf])
    ∧ status w' = Some 404
    ∧ body w' = bytes_of_string ("not found" ++ newline).
Proof.
  destruct (ServeHTTP_file_trailing_slash (H := Fixture.lib) Fixture.server
              Fixture.server1 [] [Fixture.zf] new_ResponseWriter
              (Fixture.get "/docs/readme.txt/" "gzip") 0%nat Fixture.zf
              (Fixture.entry_of Fixture.readme))
    as (HS & Hst & Hb); [vm_compute; reflexivity ..|].
  eexists. split; [exact HS|]. split; [apply Hst; reflexivity | exact Hb].
Defined.

(** C6, as claimed, fails at the file [empty]: its name has no extension and
    it has no bytes, and its type is [text/plain; charset=utf-8], not the
    generic binary type. *)
Lemma GetMime_empty_file_is_text_plain :
  mime_lookup Fixture.zf Fixture.empty = None
  ∧ mime_TypeByExtension (GoLibrary := Fixture.lib) (Ext (Name Fixture.empty))
    = ""
  ∧ File_Open Fixture.empty = Ok []
  ∧ GetMime (H := Fixture.lib) Fixture.zf Fixture.empty
    = Ret ("text/plain; charset=utf-8",
           mime_store Fixture.zf Fixture.empty "text/plain; charset=utf-8")
  ∧ "text/plain; charset=utf-8" ≠ "application/octet-stream".
Proof. repeat split; try (vm_compute; reflexivity). discriminate. Qed.

(** C6, amended, at the file [empty]. *)
Lemma GetMime_resolution_order_witness :
  GetMime (H := Fixture.lib) Fixture.zf Fixture.empty
  = Ret ("text/plain; charset=utf-8",
         mime_store Fixture.zf Fixture.empty "text/plain; charset=utf-8").
Proof.
  destruct (GetMime_resolution_order (H := Fixture.lib) Fixture.zf
              Fixture.empty) as [_ Hsniff]; [vm_compute; reflexivity|].
  destruct (Hsniff eq_refl [] eq_refl) as (_ & HG & _ & He).
  rewrite (He eq_refl) in HG. exact HG.
Defined.

(** C7, as claimed, fails when two first requests for [LICENSE] overlap:
    both miss the cache before either stores, and the sniffing runs twice.
    Both return the same type. *)
Lemma GetMime_concurrent_sniffs_twice :
  let st := run (gm_step (H := Fixture.lib)) [0; 1; 0; 1; 0; 1]%nat
              ((Fixture.zf, []),
               [gm_lookup Fixture.license; gm_lookup Fixture.license]) in
  sniff_count (ptr Fixture.license) st.1.2 = 2%nat
  ∧ ¬ (sniff_count (ptr Fixture.license) st.1.2 ≤ 1)%nat
  ∧ st.2 = [gm_done Fixture.license "text/plain; charset=utf-8";
            gm_done Fixture.license "text/plain; charset=utf-8"].
Proof.
  vm_compute. split; [reflexivity|]. split; [|reflexivity].
  intros Hle. inversion Hle as [|? Hle']. inversion Hle'.
Qed.

(** C7, amended, at three requests, two of them for [LICENSE]. *)
Lemma GetMime_memoized_witness :
  (∀ sched,
     let st := run (gm_step (H := Fixture.lib)) sched
                 ((Fixture.zf, []),
                  gm_lookup <$> [Fixture.license; Fixture.readme;
                                 Fixture.license]) in
     (∀ i j x y, st.2 !! i = Some (gm_done Fixture.license x) →
                 st.2 !! j = Some (gm_done Fixture.license y) → x = y)
     ∧ (∀ x sched',
          mimeCache st.1.1 !! ptr Fixture.license = Some x →
          mimeCache (run (gm_step (H := Fixture.lib)) sched' st).1.1
            !! ptr Fixture.license = Some x))
  ∧ (sniff_count (ptr Fixture.license)
       (gm_calls (H := Fixture.lib) (Fixture.zf, [])
          [Fixture.license; Fixture.readme; Fixture.license]).2 ≤ 1)%nat.
Proof.
  apply (GetMime_memoized (H := Fixture.lib) Fixture.zf
           [Fixture.license; Fixture.readme; Fixture.license] Fixture.license).
  - vm_compute. reflexivity.
  - intros g Hg Hp. rewrite !elem_of_cons, elem_of_nil in Hg.
    destruct Hg as [-> | [-> | [-> | []]]];
      solve [reflexivity | vm_compute in Hp; discriminate].
Defined.

(** C8.  Two first requests for [/srv/site.zip] that overlap: both find the
    registry empty before either stores.  The archive is opened twice (the
    heap holds two objects), the callers return different addresses, and the
    registry keeps the second only. *)
Theorem getArchive_concurrent_first_calls_open_twice :
  let st := run (ga_step (H := Fixture.lib)) [0; 1; 0; 0; 1; 1]%nat
              ((Fixture.server, []),
               [ga_check "/srv/site.zip"; ga_check "/srv/site.zip"]) in
  st.2 = [ga_done (Ok 0%nat); ga_done (Ok 1%nat)]
  ∧ length st.1.2 = 2%nat
  ∧ archives st.1.1 !! "/srv/site.zip" = Some 1%nat.
Proof. vm_compute. repeat split; reflexivity. Qed.

(** C9.  A request for the deflated file [docs/broken.txt], whose raw stream
    does not open, from a client that accepts gzip: the response has status
    200 and [Content-Encoding: gzip], and its body is the ten bytes of the
    gzip header followed by the text of the error. *)
Theorem ServeHTTP_raw_open_failure_after_header :
  ∃ w' z' heap',
    ServeHTTP (H := Fixture.lib) Fixture.server [] new_ResponseWriter
      (Fixture.get "/docs/broken.txt" "gzip")
    = Ret (w', z', heap')
    ∧ status w' = Some 200
    ∧ header w' !! "Content-Encoding" = Some "gzip"
    ∧ body w' = ([Byte.x1f; Byte.x8b; Byte.x08; Byte.x00]
                 ++ [Byte.x00; Byte.xf1; Byte.x53; Byte.x65]
                 ++ [Byte.x00; Byte.xff]
                 ++ bytes_of_string ("zip: not a valid zip file" ++ newline))%list.
Proof.
  vm_compute. eexists _, _, _. split; [reflexivity|].
  repeat split; reflexivity.
Qed.


(** * Further properties of the server *)

(** ** The name looked up in the archive *)

Lemma list_ascii_of_string_app (s1 s2 : string) :
  list_ascii_of_string (s1 ++ s2)
  = (list_ascii_of_string s1 ++ list_ascii_of_string s2)%list.
Proof. induction s1 as [|a s1 IH]; simpl; [reflexivity | by rewrite IH]. Qed.

Lemma in_cutset_slash (c : ascii) : in_cutset "/" c = Ascii.eqb c "/".
Proof. unfold in_cutset. simpl. apply orb_false_r. Qed.

Lemma TrimLeft_list_head (l : list ascii) :
  match TrimLeft_list "/" l with
  | [] => True
  | c :: _ => Ascii.eqb c "/" = false
  end.
Proof.
  induction l as [|c l IH]; simpl; [exact I|].
  rewrite in_cutset_slash. destruct (Ascii.eqb c "/") eqn:E; [exact IH|exact E].
Qed.

Lemma TrimLeft_list_split (l : list ascii) :
  ∃ pre, l = (pre ++ TrimLeft_list "/" l)%list.
Proof.
  induction l as [|c l [pre IH]]; simpl; [by exists []|].
  destruct (in_cutset "/" c); [|by exists []].
  exists (c :: pre). simpl. by rewrite <- IH.
Qed.

Lemma TrimLeft_list_idem (l : list ascii) :
  TrimLeft_list "/" (TrimLeft_list "/" l) = TrimLeft_list "/" l.
Proof.
  pose proof (TrimLeft_list_head l) as Hh.
  destruct (TrimLeft_list "/" l) as [|c l']; [reflexivity|].
  simpl. rewrite in_cutset_slash, Hh. reflexivity.
Qed.

Lemma TrimLeft_list_snoc (l : list ascii) :
  TrimLeft_list "/" (l ++ ["/"%char])
  = match TrimLeft_list "/" l with
    | [] => []
    | c :: l' => (c :: l' ++ ["/"%char])%list
    end.
Proof.
  induction l as [|c l IH]; simpl; [reflexivity|].
  destruct (in_cutset "/" c); [exact IH|reflexivity].
Qed.

(** The characters of [Trim s "/"]: neither the first nor the last is a
    slash. *)
Lemma Trim_ends (s : string) :
  match list_ascii_of_string (Trim s "/") with
  | [] => True
  | c :: _ => Ascii.eqb c "/" = false
  end
  ∧ match last (list_ascii_of_string (Trim s "/")) with
    | None => True
    | Some c => Ascii.eqb c "/" = false
    end.
Proof.
  unfold Trim. rewrite list_ascii_of_string_of_list_ascii.
  set (m := TrimLeft_list "/" (list_ascii_of_string s)).
  pose proof (TrimLeft_list_head (list_ascii_of_string s)) as Hm. fold m in Hm.
  pose proof (TrimLeft_list_head (rev m)) as Hr.
  destruct (TrimLeft_list_split (rev m)) as [pre Hpre].
  set (t := TrimLeft_list "/" (rev m)) in *.
  assert (Hmt : m = (rev t ++ rev pre)%list).
  { rewrite <- rev_app_distr, <- Hpre, rev_involutive. reflexivity. }
  split.
  - destruct (rev t) as [|c t'] eqn:Et; [exact I|].
    rewrite Hmt in Hm. exact Hm.
  - destruct t as [|c t']; [exact I|]. simpl. rewrite last_snoc. exact Hr.
Qed.

Lemma HasSuffix_slash_last (s : string) :
  HasSuffix s "/"
  = match last (list_ascii_of_string s) with
    | Some c => Ascii.eqb c "/"
    | None => false
    end.
Proof.
  unfold HasSuffix. simpl String.length.
  induction s as [|a s IH]; [reflexivity|].
  destruct s as [|b s].
  - simpl. destruct (Ascii.eqb a "/"); reflexivity.
  - change (list_ascii_of_string (String a (String b s)))
      with (a :: list_ascii_of_string (String b s)).
    change (last (a :: list_ascii_of_string (String b s)))
      with (last (list_ascii_of_string (String b s))).
    rewrite <- IH. simpl String.length.
    replace (S (S (String.length s)) - 1)%nat with (S (String.length s)) by lia.
    replace (S (String.length s) - 1)%nat with (String.length s) by lia.
    reflexivity.
Qed.

Lemma prefix_slash_head (s : string) :
  String.prefix "/" s
  = match list_ascii_of_string s with
    | c :: _ => Ascii.eqb c "/"
    | [] => false
    end.
Proof.
  destruct s as [|c s]; [reflexivity|].
  change (String.prefix "/" (String c s))
    with (if ascii_dec "/" c then String.prefix "" s else false).
  change (list_ascii_of_string (String c s))
    with (c :: list_ascii_of_string s).
  destruct (ascii_dec "/" c) as [<-|Hne].
  - destruct s; reflexivity.
  - symmetry. apply Ascii.eqb_neq. congruence.
Qed.

(** X1.  The name [ServeHTTP] looks up is never empty, does not begin with
    a slash and does not end with one. *)
Theorem archive_name_clean (orig_path : string) :
  archive_name orig_path ≠ ""
  ∧ String.prefix "/" (archive_name orig_path) = false
  ∧ HasSuffix (archive_name orig_path) "/" = false.
Proof.
  unfold archive_name.
  destruct (String.eqb_spec (Trim orig_path "/") "") as [E|E].
  - split; [discriminate|]. split; reflexivity.
  - split; [exact E|].
    rewrite prefix_slash_head, HasSuffix_slash_last.
    destruct (Trim_ends orig_path) as [Hh Hl].
    destruct (list_ascii_of_string (Trim orig_path "/")) as [|c l] eqn:El.
    + exfalso. apply E.
      rewrite <- (string_of_list_ascii_of_string (Trim orig_path "/")), El.
      reflexivity.
    + split; [exact Hh|]. destruct (last (c :: l)); [exact Hl|reflexivity].
Qed.

(** X2.  A slash more at the front or at the end of the path does not change
    the name looked up: [/docs] and [/docs/] name the same entry. *)
Theorem archive_name_slashes (orig_path : string) :
  archive_name ("/" ++ orig_path) = archive_name orig_path
  ∧ archive_name (orig_path ++ "/") = archive_name orig_path.
Proof.
  assert (Hfront : Trim ("/" ++ orig_path) "/" = Trim orig_path "/")
    by reflexivity.
  assert (Hend : Trim (orig_path ++ "/") "/" = Trim orig_path "/").
  { unfold Trim. f_equal. f_equal.
    rewrite list_ascii_of_string_app. simpl list_ascii_of_string.
    rewrite TrimLeft_list_snoc.
    destruct (TrimLeft_list "/" (list_ascii_of_string orig_path)) as [|c l];
      [reflexivity|].
    change (c :: l ++ ["/"%char])%list with ((c :: l) ++ ["/"%char])%list.
    rewrite rev_app_distr. reflexivity. }
  unfold archive_name. rewrite Hfront, Hend. split; reflexivity.
Qed.

Section Coverage.

Context `{GoLibrary}.

(** ** The registry, one call after another *)

Lemma holds_archive_app (heap more : list zipFS) (zl : loc) (path : string) :
  holds_archive heap zl path → holds_archive (heap ++ more) zl path.
Proof.
  intros (zf & Hl & Ho). exists zf. split; [|exact Ho].
  apply lookup_app_l_Some, Hl.
Qed.

Lemma getArchive_preserves_ok (z z' : ZipServer) (heap heap' : list zipFS)
    (path : string) (got : result loc) :
  registry_ok (archives z) heap →
  getArchive z heap path = (got, z', heap') →
  registry_ok (archives z') heap'.
Proof.
  intros Hok. unfold getArchive.
  destruct (archives z !! path) as [zl0|] eqn:E.
  - intros [= <- <- <-]. exact Hok.
  - destruct (zip_OpenReader path) as [rc|err] eqn:Eo; intros [= <- <- <-];
      [|exact Hok].
    intros p l. simpl. rewrite lookup_insert. case_decide as Hp.
    + intros [= <-]. subst p. exists (newZipFS rc). split; [|exact Eo].
      rewrite lookup_app_r by lia. by rewrite Nat.sub_diag.
    + intros Hl. apply holds_archive_app, Hok, Hl.
Qed.

Lemma getArchive_held (z z' : ZipServer) (heap heap' : list zipFS)
    (path : string) (zl : loc) :
  registry_ok (archives z) heap →
  getArchive z heap path = (Ok zl, z', heap') →
  holds_archive heap' zl path.
Proof.
  intros Hok HG.
  apply (getArchive_preserves_ok z z' heap heap' path (Ok zl) Hok HG).
  apply (getArchive_stores z z' heap heap' path zl HG).
Qed.

Lemma getArchive_archives_mono (z z' : ZipServer) (heap heap' : list zipFS)
    (path : string) (got : result loc) :
  getArchive z heap path = (got, z', heap') →
  ∀ p zl, archives z !! p = Some zl → archives z' !! p = Some zl.
Proof.
  unfold getArchive. destruct (archives z !! path) as [zl0|] eqn:E.
  - intros [= <- <- <-]. auto.
  - destruct (zip_OpenReader path) as [rc|err]; intros [= <- <- <-]; [|auto].
    intros p zl Hp. simpl. rewrite lookup_insert_ne; [exact Hp|].
    intros ->. congruence.
Qed.

Lemma getArchive_heap_grows (z z' : ZipServer) (heap heap' : list zipFS)
    (path : string) (got : result loc) :
  getArchive z heap path = (got, z', heap') →
  ∃ more, heap' = (heap ++ more)%list ∧ (length more ≤ 1)%nat.
Proof.
  unfold getArchive. destruct (archives z !! path) as [zl0|].
  - intros [= <- <- <-]. exists []. split; [by rewrite app_nil_r|simpl; lia].
  - destruct (zip_OpenReader path) as [rc|err]; intros [= <- <- <-].
    + exists [newZipFS rc]. split; [reflexivity|simpl; lia].
    + exists []. split; [by rewrite app_nil_r|simpl; lia].
Qed.

(** X3.  When every registered address holds the archive of its path, it is
    so again after [getArchive], and an address [getArchive] returns is
    registered for the path asked and holds its archive. *)
Theorem getArchive_registry_ok (z z' : ZipServer) (heap heap' : list zipFS)
    (path : string) (got : result loc) :
  registry_ok (archives z) heap →
  getArchive z heap path = (got, z', heap') →
  registry_ok (archives z') heap'
  ∧ ∀ zl, got = Ok zl →
          archives z' !! path = Some zl ∧ holds_archive heap' zl path.
Proof.
  intros Hok HG. split.
  - exact (getArchive_preserves_ok z z' heap heap' path got Hok HG).
  - intros zl ->. split.
    + exact (getArchive_stores z z' heap heap' path zl HG).
    + exact (getArchive_held z z' heap heap' path zl Hok HG).
Qed.

(** X4.  A call of [getArchive] during which no other call runs (the three
    parts of the call one after the other, see [ga_alone]) forgets nothing:
    what was registered stays registered at the same address, the heap grows
    by at most one object at its end, the index name stays; and when the
    archive does not open, server and heap are as they were. *)
Theorem getArchive_keeps (z z' : ZipServer) (heap heap' : list zipFS)
    (path : string) (got : result loc) :
  getArchive z heap path = (got, z', heap') →
  (∀ p zl, archives z !! p = Some zl → archives z' !! p = Some zl)
  ∧ (∃ more, heap' = (heap ++ more)%list ∧ (length more ≤ 1)%nat)
  ∧ index z' = index z
  ∧ (∀ err, got = Err err →
            z' = z ∧ heap' = heap ∧ zip_OpenReader path = Err err).
Proof.
  intros HG. split; [|split; [|split]].
  - exact (getArchive_archives_mono z z' heap heap' path got HG).
  - exact (getArchive_heap_grows z z' heap heap' path got HG).
  - pose proof (getArchive_index z heap path) as Hi. by rewrite HG in Hi.
  - intros err ->. revert HG. unfold getArchive.
    destruct (archives z !! path); [discriminate|].
    destruct (zip_OpenReader path); [discriminate|].
    intros [= <- <- <-]. auto.
Qed.

(** X5.  A call of [getArchive] that follows a successful one for the same
    path returns the same address and changes nothing: the archive is not
    opened again. *)
Theorem getArchive_again (z z' : ZipServer) (heap heap' : list zipFS)
    (path : string) (zl : loc) :
  getArchive z heap path = (Ok zl, z', heap') →
  getArchive z' heap' path = (Ok zl, z', heap').
Proof.
  intros HG. apply getArchive_cached.
  apply (getArchive_stores z z' heap heap' path zl HG).
Qed.

(** ** The cache of content types, one call after another *)

Lemma GetMime_stores (z z' : zipFS) (f : zip_File) (x : string) :
  GetMime z f = Ret (x, z') → mimeCache z' !! ptr f = Some x.
Proof.
  unfold GetMime, mime_lookup.
  destruct (mimeCache z !! ptr f) as [y|] eqn:E.
  - intros [= <- <-]. exact E.
  - destruct (mime_resolve f) as [[c ran]|]; [|discriminate].
    simpl. intros [= <- <-]. simpl. apply lookup_insert_eq.
Qed.

Lemma GetMime_hit (z : zipFS) (g : zip_File) (x : string) :
  mimeCache z !! ptr g = Some x → GetMime z g = Ret (x, z).
Proof. intros E. unfold GetMime, mime_lookup. rewrite E. reflexivity. Qed.

Lemma GetMime_ReadCloser (z z' : zipFS) (f : zip_File) (x : string) :
  GetMime z f = Ret (x, z') → ReadCloser z' = ReadCloser z.
Proof.
  unfold GetMime. destruct (mime_lookup z f).
  - intros [= <- <-]. reflexivity.
  - destruct (mime_resolve f) as [[c ran]|]; [|discriminate].
    simpl. intros [= <- <-]. reflexivity.
Qed.

Lemma GetMime_cache_other (z z' : zipFS) (f : zip_File) (x : string) :
  GetMime z f = Ret (x, z') →
  ∀ p, p ≠ ptr f → mimeCache z' !! p = mimeCache z !! p.
Proof.
  unfold GetMime. destruct (mime_lookup z f).
  - intros [= <- <-]. reflexivity.
  - destruct (mime_resolve f) as [[c ran]|]; [|discriminate].
    simpl. intros [= <- <-] p Hp. simpl. apply lookup_insert_ne. congruence.
Qed.

Lemma GetMime_cache_mono (z z' : zipFS) (f : zip_File) (x : string) :
  GetMime z f = Ret (x, z') →
  ∀ p y, mimeCache z !! p = Some y → mimeCache z' !! p = Some y.
Proof.
  unfold GetMime, mime_lookup.
  destruct (mimeCache z !! ptr f) as [y0|] eqn:E.
  - intros [= <- <-]. auto.
  - destruct (mime_resolve f) as [[c ran]|]; [|discriminate].
    simpl. intros [= <- <-] p y Hy. simpl.
    rewrite lookup_insert_ne; [exact Hy|]. congruence.
Qed.

(** X6.  Once [GetMime] has returned a type for a file, the type is cached
    under the file's address: every later call for that address returns it
    and changes nothing, without opening the file. *)
Theorem GetMime_again (z z' : zipFS) (f : zip_File) (x : string) :
  GetMime z f = Ret (x, z') →
  mimeCache z' !! ptr f = Some x
  ∧ ∀ g, ptr g = ptr f → GetMime z' g = Ret (x, z').
Proof.
  intros HG. pose proof (GetMime_stores z z' f x HG) as Hc.
  split; [exact Hc|]. intros g Hg. apply GetMime_hit. by rewrite Hg.
Qed.

(** X7.  [GetMime] touches the cache at the file's address only and never
    replaces what is cached; the archive reader is left alone. *)
Theorem GetMime_frame (z z' : zipFS) (f : zip_File) (x : string) :
  GetMime z f = Ret (x, z') →
  ReadCloser z' = ReadCloser z
  ∧ (∀ p, p ≠ ptr f → mimeCache z' !! p = mimeCache z !! p)
  ∧ (∀ p y, mimeCache z !! p = Some y → mimeCache z' !! p = Some y).
Proof.
  intros HG. split; [|split].
  - exact (GetMime_ReadCloser z z' f x HG).
  - exact (GetMime_cache_other z z' f x HG).
  - exact (GetMime_cache_mono z z' f x HG).
Qed.

(** X8.  [GetMime] panics in one case only: the type is not cached, the
    extension table has nothing for the name, and the file does not open;
    the panic carries the error of the open. *)
Theorem GetMime_panics_iff (z : zipFS) (f : zip_File) (msg : string) :
  GetMime z f = Panic msg
  ↔ mime_lookup z f = None
    ∧ mime_TypeByExtension (Ext (Name f)) = ""
    ∧ File_Open f = Err msg.
Proof.
  unfold GetMime, mime_resolve.
  destruct (mime_lookup z f) as [y|].
  { split; [discriminate|]. intros [? _]. discriminate. }
  destruct (String.eqb_spec (mime_TypeByExtension (Ext (Name f))) "")
    as [E|E]; cbn [negb].
  - destruct (File_Open f) as [rc|err].
    + split; [discriminate|]. intros (_ & _ & ?). discriminate.
    + split.
      * intros [= <-]. auto.
      * intros (_ & _ & [= <-]). reflexivity.
  - split; [discriminate|]. intros (_ & ? & _). contradiction.
Qed.

(** ** Headers of a delivery, and listings *)

Lemma header_Set_same (key value : string) (w : ResponseWriter) :
  header (Header_Set key value w) !! CanonicalMIMEHeaderKey key = Some value.
Proof. rewrite header_Set_lookup. by rewrite decide_True. Qed.

Lemma header_Set_other (key value k : string) (w : ResponseWriter) :
  CanonicalMIMEHeaderKey key ≠ k →
  header (Header_Set key value w) !! k = header w !! k.
Proof. intros Hne. rewrite header_Set_lookup. by rewrite decide_False. Qed.

Lemma Content_Type_http_Error w msg code :
  header (http_Error w msg code) !! "Content-Type"
  = Some "text/plain; charset=utf-8".
Proof.
  unfold http_Error, Fprintln. rewrite header_Write, header_WriteHeader.
  rewrite header_Set_other by (vm_compute; discriminate).
  apply (header_Set_same "Content-Type").
Qed.

Lemma SendFile_returns (z z' : zipFS) (entry : ZipEntry) (w : ResponseWriter)
    (r : Request) (f : zip_File) (ctype : string) :
  Entry entry = Some f →
  GetMime z f = Ret (ctype, z') →
  ∃ w', SendFile z entry w r = Ret (w', z').
Proof.
  intros HE HG. unfold SendFile. rewrite HE, HG. simpl.
  destruct (negb _); [eauto|]. destruct (File_OpenRaw f); eauto.
Qed.

Lemma SendDirectory_returns (z : zipFS) (entry : ZipEntry)
    (w : ResponseWriter) (r : Request) :
  is_ReadDirFile (File entry) = true →
  ∃ w', SendDirectory z entry w r = Ret w'.
Proof.
  intros Hd. unfold SendDirectory.
  destruct (File entry); [|discriminate].
  destruct (zip_ReadDir files); eauto.
Qed.

(** Once the status is written, nothing the handler does changes the header
    that was sent. *)
Lemma sent_header_fresh (w : ResponseWriter) :
  status w = None → sent_header w = header w.
Proof. unfold sent_header. by intros ->. Qed.

Lemma sent_header_Write_fresh (p : bytes) (w : ResponseWriter) :
  status w = None →
  sent_header (Write p w) = header w ∧ status (Write p w) = Some 200.
Proof. unfold sent_header, Write, WriteHeader. by intros ->. Qed.

Lemma sent_header_Write (p : bytes) (w : ResponseWriter) (c : Z) :
  status w = Some c →
  sent_header (Write p w) = sent_header w ∧ status (Write p w) = Some c.
Proof.
  intros Hs. unfold sent_header, Write, WriteHeader. rewrite Hs. simpl.
  by rewrite Hs.
Qed.

Lemma sent_header_io_Copy (src : bytes) (w : ResponseWriter) (c : Z) :
  status w = Some c →
  sent_header (io_Copy w src) = sent_header w
  ∧ status (io_Copy w src) = Some c.
Proof.
  intros Hs. unfold io_Copy. destruct src; [auto|].
  by apply sent_header_Write.
Qed.

Lemma sent_header_http_Error (w : ResponseWriter) (msg : string) (code c : Z) :
  status w = Some c →
  sent_header (http_Error w msg code) = sent_header w
  ∧ status (http_Error w msg code) = Some c.
Proof.
  intros Hs. unfold http_Error, Fprintln.
  set (w3 := Header_Set "X-Content-Type-Options" "nosniff" _).
  assert (Hw : WriteHeader code w3 = w3)
    by (unfold WriteHeader; simpl; by rewrite Hs).
  rewrite Hw. destruct (sent_header_Write (bytes_of_string (msg ++ newline))
                          w3 c Hs) as [Hh Hs'].
  split; [|exact Hs']. rewrite Hh. unfold sent_header. simpl. by rewrite Hs.
Qed.

(** X9.  [SendFile] on a response of which nothing is written yet, for a
    file whose type resolves: the header that is sent carries the formatted
    modification time of the file as [Last-Modified] and the resolved type as
    [Content-Type], and [Content-Encoding: gzip] in a gzip delivery.  That is
    so also when the raw stream of a gzip delivery does not open: the header
    went out with status 200 at the first byte of the gzip frame, and the
    [text/plain] that [http.Error] sets afterwards is in the handler's map
    only. *)
Theorem SendFile_headers (z z' : zipFS) (entry : ZipEntry) (w : ResponseWriter)
    (r : Request) (f : zip_File) (ctype : string) :
  Entry entry = Some f →
  GetMime z f = Ret (ctype, z') →
  status w = None →
  ∃ w',
    SendFile z entry w r = Ret (w', z')
    ∧ sent_header w' !! "Last-Modified" = Some (time_Format (Modified f))
    ∧ sent_header w' !! "Content-Type" = Some ctype
    ∧ (Z.eqb (Method f) Deflate && accepts_gzip r = true →
       sent_header w' !! "Content-Encoding" = Some "gzip"
       ∧ status w' = Some 200
       ∧ ∀ err, File_OpenRaw f = Err err →
                header w' !! "Content-Type" = Some "text/plain; charset=utf-8").
Proof.
  intros HE HG Hst. unfold SendFile. rewrite HE, HG. simpl.
  set (w1 := Header_Set "Content-Type" ctype
               (Header_Set "Last-Modified" (time_Format (Modified f)) w)).
  assert (HLM : header w1 !! "Last-Modified"
                = Some (time_Format (Modified f))).
  { unfold w1. rewrite header_Set_other by (vm_compute; discriminate).
    apply (header_Set_same "Last-Modified"). }
  assert (HCT : header w1 !! "Content-Type" = Some ctype)
    by apply (header_Set_same "Content-Type").
  assert (Hst1 : status w1 = None) by exact Hst.
  destruct (Z.eqb (Method f) Deflate && accepts_gzip r); simpl.
  - set (w2 := Header_Set "Content-Encoding" "gzip" w1).
    assert (Hst2 : status w2 = None) by exact Hst.
    destruct (sent_header_Write_fresh gzip_magic w2 Hst2) as [Hh3 Hs3].
    destruct (sent_header_Write (le32 (uint32 (Unix (Modified f)))) _ _ Hs3)
      as [Hh4 Hs4].
    destruct (sent_header_Write gzip_xfl_os _ _ Hs4) as [Hh5 Hs5].
    assert (Hsent : ∀ w', sent_header w' = header w2 →
              sent_header w' !! "Last-Modified"
                = Some (time_Format (Modified f))
              ∧ sent_header w' !! "Content-Type" = Some ctype
              ∧ sent_header w' !! "Content-Encoding" = Some "gzip").
    { intros w' ->. unfold w2. split; [|split].
      - by rewrite header_Set_other by (vm_compute; discriminate).
      - by rewrite header_Set_other by (vm_compute; discriminate).
      - apply (header_Set_same "Content-Encoding"). }
    destruct (File_OpenRaw f) as [src|err].
    + destruct (sent_header_io_Copy src _ _ Hs5) as [Hh6 Hs6].
      destruct (sent_header_Write
                  (le32 (CRC32 f)
                   ++ le32 (uint32 (UncompressedSize64 f mod 0x100000000)))%list
                  _ _ Hs6) as [Hh7 Hs7].
      eexists. split; [reflexivity|].
      destruct (Hsent _ (eq_trans Hh7 (eq_trans Hh6 (eq_trans Hh5
                           (eq_trans Hh4 Hh3))))) as (? & ? & ?).
      split; [assumption|]. split; [assumption|]. intros _.
      split; [assumption|]. split; [exact Hs7|]. discriminate.
    + destruct (sent_header_http_Error _ err StatusInternalServerError _ Hs5)
        as [Hh6 Hs6].
      eexists. split; [reflexivity|].
      destruct (Hsent _ (eq_trans Hh6 (eq_trans Hh5 (eq_trans Hh4 Hh3))))
        as (? & ? & ?).
      split; [assumption|]. split; [assumption|]. intros _.
      split; [assumption|]. split; [exact Hs6|]. intros _ _.
      apply Content_Type_http_Error.
  - eexists. split; [reflexivity|].
    set (c := Read_all (File entry)).
    assert (Hsent : sent_header (io_Copy w1 c) = header w1).
    { unfold io_Copy. destruct c; [by apply sent_header_fresh|].
      by apply sent_header_Write_fresh. }
    rewrite Hsent. split; [exact HLM|]. split; [exact HCT|]. discriminate.
Qed.

(** X10.  [SendDirectory] on a directory handle: when the entries can be
    read the template's output is appended to the body and the type is
    [text/html; charset=utf-8]; when they cannot, the error is answered with
    [http.Error] and status 500.  [Last-Modified] is set only for a
    directory that has its own entry in the archive. *)
Theorem SendDirectory_response (z : zipFS) (entry : ZipEntry)
    (w : ResponseWriter) (r : Request) (e : fileListEntry)
    (files : list fileListEntry) (offset : nat) :
  File entry = openDir e files offset →
  ∃ w',
    SendDirectory z entry w r = Ret w'
    ∧ header w' !! "Last-Modified"
      = match Entry entry with
        | Some f => Some (time_Format (Modified f))
        | None => header w !! "Last-Modified"
        end
    ∧ match zip_ReadDir files with
      | Ok entries =>
          body w' = (body w ++ dir_html (URL_Path r) entries)%list
          ∧ header w' !! "Content-Type" = Some "text/html; charset=utf-8"
          ∧ status w' = Some (default 200 (status w))
      | Err err =>
          body w' = (body w ++ bytes_of_string (err ++ newline))%list
          ∧ header w' !! "Content-Type" = Some "text/plain; charset=utf-8"
          ∧ status w' = Some (default 500 (status w))
      end.
Proof.
  intros Hf. unfold SendDirectory. rewrite Hf.
  set (w1 := match Entry entry with
             | Some f => Header_Set "Last-Modified" (time_Format (Modified f)) w
             | None => w
             end).
  assert (HLM : header w1 !! "Last-Modified"
                = match Entry entry with
                  | Some f => Some (time_Format (Modified f))
                  | None => header w !! "Last-Modified"
                  end).
  { unfold w1. destruct (Entry entry); [|reflexivity].
    apply (header_Set_same "Last-Modified"). }
  assert (Hb : body w1 = body w) by (unfold w1; destruct (Entry entry); auto).
  assert (Hs : status w1 = status w)
    by (unfold w1; destruct (Entry entry); auto).
  destruct (zip_ReadDir files) as [entries|err]; eexists;
    (split; [reflexivity|]).
  - rewrite header_Write, body_Write, status_Write.
    rewrite header_Set_other by (vm_compute; discriminate).
    split; [exact HLM|]. split; [by rewrite <- Hb|]. split.
    + apply (header_Set_same "content-type").
    + by rewrite <- Hs.
  - rewrite header_http_Error_other by discriminate.
    split; [exact HLM|]. rewrite body_http_Error, Hb.
    split; [reflexivity|]. split; [apply Content_Type_http_Error|].
    rewrite status_http_Error, Hs. reflexivity.
Qed.

(** ** The remaining routes of [ServeHTTP] *)

(** X11.  An archive that is not registered and does not open is answered
    with the text of the error and status 404; nothing is registered. *)
Theorem ServeHTTP_archive_unavailable (z : ZipServer) (heap : list zipFS)
    (w : ResponseWriter) (r : Request) (err : string) :
  let path := env_get (ProcessEnv r) "SCRIPT_FILENAME" in
  archives z !! path = None →
  zip_OpenReader path = Err err →
  let w' := http_Error w err StatusNotFound in
  ServeHTTP z heap w r = Ret (w', z, heap)
  ∧ (status w = None → status w' = Some 404)
  ∧ body w' = (body w ++ bytes_of_string (err ++ newline))%list.
Proof.
  intros path Ha Ho w'. split; [|split].
  - unfold ServeHTTP, getArchive. fold path. rewrite Ha, Ho. reflexivity.
  - intros Hw. unfold w'. rewrite status_http_Error, Hw. reflexivity.
  - apply body_http_Error.
Qed.

(** X12.  A name the archive does not have is answered with the text of the
    lookup's error and status 404, whatever the slashes of the path; the
    archive opened for the request stays registered. *)
Theorem ServeHTTP_unknown_name (z z' : ZipServer) (heap heap' : list zipFS)
    (w : ResponseWriter) (r : Request) (zl : loc) (zf : zipFS)
    (err : string) :
  let orig_path := env_get (ProcessEnv r) "PATH_TRANSLATED" in
  getArchive z heap (env_get (ProcessEnv r) "SCRIPT_FILENAME")
    = (Ok zl, z', heap') →
  heap' !! zl = Some zf →
  FindRaw (ReadCloser zf) (archive_name orig_path) = Ret (Err err) →
  let w' := http_Error w err StatusNotFound in
  ServeHTTP z heap w r = Ret (w', z', heap')
  ∧ (status w = None → status w' = Some 404)
  ∧ archives z' !! env_get (ProcessEnv r) "SCRIPT_FILENAME" = Some zl.
Proof.
  intros orig_path HG HL HF w'. split; [|split].
  - rewrite (ServeHTTP_unfold z heap w r zl z' heap' zf HG HL).
    unfold ServeHTTP_archive. fold orig_path. cbv zeta. rewrite HF. simpl.
    rewrite list_insert_id by exact HL. reflexivity.
  - intros Hw. unfold w'. rewrite status_http_Error, Hw. reflexivity.
  - apply (getArchive_stores z z' heap heap' _ zl HG).
Qed.

(** X13.  A path that ends in a slash and names a directory is answered with
    the listing of [SendDirectory] when no index name is configured, and
    also when one is configured but the directory has no such entry. *)
Theorem ServeHTTP_listing (z z' : ZipServer) (heap heap' : list zipFS)
    (w : ResponseWriter) (r : Request) (zl : loc) (zf : zipFS)
    (entry : ZipEntry) :
  let orig_path := env_get (ProcessEnv r) "PATH_TRANSLATED" in
  getArchive z heap (env_get (ProcessEnv r) "SCRIPT_FILENAME")
    = (Ok zl, z', heap') →
  heap' !! zl = Some zf →
  HasSuffix orig_path "/" = true →
  FindRaw (ReadCloser zf) (archive_name orig_path) = Ret (Ok entry) →
  is_ReadDirFile (File entry) = true →
  (index z = ""
   ∨ ∃ err, FindRaw (ReadCloser zf) (path_Join (archive_name orig_path)
                                       (index z)) = Ret (Err err)) →
  ∃ w',
    SendDirectory zf entry w r = Ret w'
    ∧ ServeHTTP z heap w r = Ret (w', z', heap').
Proof.
  intros orig_path HG HL HS HF Hdir Hidx.
  destruct (SendDirectory_returns zf entry w r Hdir) as (w' & HSD).
  exists w'. split; [exact HSD|].
  rewrite (ServeHTTP_unfold z heap w r zl z' heap' zf HG HL).
  assert (Hi : index z' = index z).
  { pose proof (getArchive_index z heap
                  (env_get (ProcessEnv r) "SCRIPT_FILENAME")) as Hi.
    rewrite HG in Hi. exact Hi. }
  assert (Hd : ServeHTTP_dispatch zf entry true orig_path w r = Ret (w', zf)).
  { unfold ServeHTTP_dispatch. rewrite HS. simpl. rewrite HSD. reflexivity. }
  unfold ServeHTTP_archive. fold orig_path. cbv zeta. rewrite HF. simpl.
  rewrite Hdir, HS, Hi.
  destruct Hidx as [Hidx|[err Hidx]].
  - rewrite Hidx. simpl. rewrite Hd. simpl.
    rewrite list_insert_id by exact HL. reflexivity.
  - destruct (negb (String.eqb (index z) "")); simpl.
    + rewrite Hidx. simpl. rewrite Hd. simpl.
      rewrite list_insert_id by exact HL. reflexivity.
    + rewrite Hd. simpl. rewrite list_insert_id by exact HL. reflexivity.
Qed.

(** X14.  A path without a final slash that names a file is answered with
    what [SendFile] gives for the file, and the archive's cache of types is
    written back to the heap. *)
Theorem ServeHTTP_file (z z' : ZipServer) (heap heap' : list zipFS)
    (w : ResponseWriter) (r : Request) (zl : loc) (zf : zipFS)
    (entry : ZipEntry) :
  let orig_path := env_get (ProcessEnv r) "PATH_TRANSLATED" in
  getArchive z heap (env_get (ProcessEnv r) "SCRIPT_FILENAME")
    = (Ok zl, z', heap') →
  heap' !! zl = Some zf →
  HasSuffix orig_path "/" = false →
  FindRaw (ReadCloser zf) (archive_name orig_path) = Ret (Ok entry) →
  is_ReadDirFile (File entry) = false →
  ∃ w' zf',
    SendFile zf entry w r = Ret (w', zf')
    ∧ ServeHTTP z heap w r = Ret (w', z', <[zl := zf']> heap').
Proof.
  intros orig_path HG HL HS HF Hfile.
  destruct (FindRaw_file _ _ _ HF Hfile) as (f & rc & HE & _ & HO).
  destruct (GetMime_returns zf f rc HO) as (ctype & zf' & HGM).
  destruct (SendFile_returns zf zf' entry w r f ctype HE HGM) as (w' & HSF).
  exists w', zf'. split; [exact HSF|].
  rewrite (ServeHTTP_unfold z heap w r zl z' heap' zf HG HL).
  unfold ServeHTTP_archive. fold orig_path. cbv zeta. rewrite HF. simpl.
  rewrite Hfile, HS. simpl.
  unfold ServeHTTP_dispatch. rewrite HS. simpl. rewrite HSF. reflexivity.
Qed.

(** ** What a request leaves behind *)

(** [zf'] is [zf] with possibly more types cached. *)
Lemma SendFile_state (z z' : zipFS) (entry : ZipEntry) (w w' : ResponseWriter)
    (r : Request) :
  SendFile z entry w r = Ret (w', z') →
  ∃ f x, Entry entry = Some f ∧ GetMime z f = Ret (x, z').
Proof.
  unfold SendFile. destruct (Entry entry) as [f|]; [|discriminate].
  destruct (GetMime z f) as [[x z1]|] eqn:HG; [|discriminate]. simpl.
  intros HS. exists f, x. split; [reflexivity|].
  destruct (negb _); [congruence|].
  destruct (File_OpenRaw f); congruence.
Qed.

Lemma SendFile_twice (z z' : zipFS) (entry : ZipEntry) (w w' : ResponseWriter)
    (r : Request) :
  SendFile z entry w r = Ret (w', z') →
  SendFile z' entry w r = Ret (w', z').
Proof.
  intros HS. destruct (SendFile_state _ _ _ _ _ _ HS) as (f & x & HE & HG).
  pose proof (GetMime_hit z' f x (GetMime_stores z z' f x HG)) as HG'.
  rewrite <- HS. unfold SendFile. rewrite HE, HG, HG'. reflexivity.
Qed.

Lemma ServeHTTP_dispatch_state (zf zf' : zipFS) (entry : ZipEntry) (d : bool)
    (orig_path : string) (w w' : ResponseWriter) (r : Request) :
  ServeHTTP_dispatch zf entry d orig_path w r = Ret (w', zf') →
  zf' = zf ∨ SendFile zf entry w r = Ret (w', zf').
Proof.
  unfold ServeHTTP_dispatch.
  destruct (d && negb (HasSuffix orig_path "/")); [intros [= <- <-]; auto|].
  destruct (HasSuffix orig_path "/" && negb d); [intros [= <- <-]; auto|].
  destruct d; [|auto].
  destruct (SendDirectory zf entry w r); simpl; [|discriminate].
  intros [= <- <-]. auto.
Qed.

Lemma ServeHTTP_dispatch_twice (zf zf' : zipFS) (entry : ZipEntry) (d : bool)
    (orig_path : string) (w w' : ResponseWriter) (r : Request) :
  ServeHTTP_dispatch zf entry d orig_path w r = Ret (w', zf') →
  ServeHTTP_dispatch zf' entry d orig_path w r = Ret (w', zf').
Proof.
  unfold ServeHTTP_dispatch.
  destruct (d && negb (HasSuffix orig_path "/")); [by intros [= <- <-]|].
  destruct (HasSuffix orig_path "/" && negb d); [by intros [= <- <-]|].
  destruct d; [|apply SendFile_twice].
  unfold SendDirectory.
  destruct (match File entry with
            | openDir _ _ _ => _ | checksumReader _ _ => _ end);
    simpl; [|discriminate].
  by intros [= <- <-].
Qed.

(** The archive after [ServeHTTP_archive] is the one before, or the one
    [SendFile] left for some entry. *)
Lemma ServeHTTP_archive_state (z : ZipServer) (zf zf' : zipFS)
    (w w' : ResponseWriter) (r : Request) :
  ServeHTTP_archive z zf w r = Ret (w', zf') →
  zf' = zf ∨ ∃ entry, SendFile zf entry w r = Ret (w', zf').
Proof.
  unfold ServeHTTP_archive. cbv zeta.
  destruct (FindRaw (ReadCloser zf) (archive_name _)) as [[entry|err]|]; simpl;
    [| intros [= <- <-]; auto | discriminate].
  assert (Hd : ∀ d o, ServeHTTP_dispatch zf entry d o w r = Ret (w', zf') →
                      zf' = zf ∨ ∃ e, SendFile zf e w r = Ret (w', zf')).
  { intros d o Hd. destruct (ServeHTTP_dispatch_state _ _ _ _ _ _ _ _ Hd);
      eauto. }
  destruct (_ && _); [|apply Hd].
  destruct (FindRaw (ReadCloser zf) _) as [[ie|err]|]; simpl;
    [eauto | apply Hd | discriminate].
Qed.

Lemma SendFile_frame (z z' : zipFS) (entry : ZipEntry) (w w' : ResponseWriter)
    (r : Request) :
  SendFile z entry w r = Ret (w', z') →
  ReadCloser z' = ReadCloser z
  ∧ ∀ p y, mimeCache z !! p = Some y → mimeCache z' !! p = Some y.
Proof.
  intros HS. destruct (SendFile_state _ _ _ _ _ _ HS) as (f & x & _ & HG).
  split; [exact (GetMime_ReadCloser z z' f x HG)|].
  exact (GetMime_cache_mono z z' f x HG).
Qed.

Lemma ServeHTTP_archive_frame (z : ZipServer) (zf zf' : zipFS)
    (w w' : ResponseWriter) (r : Request) :
  ServeHTTP_archive z zf w r = Ret (w', zf') →
  ReadCloser zf' = ReadCloser zf
  ∧ ∀ p y, mimeCache zf !! p = Some y → mimeCache zf' !! p = Some y.
Proof.
  intros HA. destruct (ServeHTTP_archive_state _ _ _ _ _ _ HA) as [->|[e HS]].
  - auto.
  - exact (SendFile_frame _ _ _ _ _ _ HS).
Qed.

Lemma ServeHTTP_archive_twice (z : ZipServer) (zf zf' : zipFS)
    (w w' : ResponseWriter) (r : Request) :
  ServeHTTP_archive z zf w r = Ret (w', zf') →
  ServeHTTP_archive z zf' w r = Ret (w', zf').
Proof.
  intros HA. destruct (ServeHTTP_archive_frame _ _ _ _ _ _ HA) as [Hrc _].
  revert HA. unfold ServeHTTP_archive. cbv zeta. rewrite Hrc.
  destruct (FindRaw (ReadCloser zf) (archive_name _)) as [[entry|err]|]; simpl;
    [| by intros [= <- <-] | discriminate].
  destruct (_ && _); [|apply ServeHTTP_dispatch_twice].
  destruct (FindRaw (ReadCloser zf) _) as [[ie|err]|]; simpl;
    [apply SendFile_twice | apply ServeHTTP_dispatch_twice | discriminate].
Qed.

(** X15.  A request that was answered, made again with the server and the
    heap it left, gets the same response and leaves server and heap exactly
    as they are; so the heap holds no new archive and no cache a new type. *)
Theorem ServeHTTP_again (z z1 : ZipServer) (heap h1 : list zipFS)
    (w w1 : ResponseWriter) (r : Request) :
  ServeHTTP z heap w r = Ret (w1, z1, h1) →
  ServeHTTP z1 h1 w r = Ret (w1, z1, h1).
Proof.
  unfold ServeHTTP at 1.
  destruct (getArchive z heap (env_get (ProcessEnv r) "SCRIPT_FILENAME"))
    as [[got z'] heap'] eqn:HG.
  destruct got as [zl|err].
  - destruct (heap' !! zl) as [zf|] eqn:HL; [|discriminate].
    destruct (ServeHTTP_archive z' zf w r) as [[w' zf']|] eqn:HA;
      [|discriminate].
    simpl. intros [= <- <- <-].
    pose proof (getArchive_cached z' (<[zl := zf']> heap') _ zl
                  (getArchive_stores _ _ _ _ _ _ HG)) as HG'.
    assert (HL' : <[zl := zf']> heap' !! zl = Some zf').
    { apply list_lookup_insert_eq. apply lookup_lt_Some in HL. exact HL. }
    rewrite (ServeHTTP_unfold z' _ w r zl z' _ zf' HG' HL').
    rewrite (ServeHTTP_archive_twice _ _ _ _ _ _ HA). simpl.
    rewrite list_insert_insert_eq. reflexivity.
  - intros [= <- <- <-]. unfold getArchive in HG.
    destruct (archives z !! _) eqn:Ea; [discriminate|].
    destruct (zip_OpenReader _) eqn:Eo; [discriminate|].
    injection HG as <- <- <-.
    unfold ServeHTTP, getArchive. rewrite Ea, Eo. reflexivity.
Qed.

Lemma holds_archive_insert (heap : list zipFS) (zl l : loc) (zf zf' : zipFS)
    (path : string) :
  heap !! zl = Some zf → ReadCloser zf' = ReadCloser zf →
  holds_archive heap l path → holds_archive (<[zl := zf']> heap) l path.
Proof.
  intros HL Hrc (zf0 & Hl & Ho). destruct (decide (l = zl)) as [->|Hne].
  - exists zf'. split.
    + apply list_lookup_insert_eq. apply lookup_lt_Some in HL. exact HL.
    + rewrite Hrc. congruence.
  - exists zf0. split; [|exact Ho]. by rewrite list_lookup_insert_ne.
Qed.

(** X16.  A request during which no other request runs, and that returns,
    removes or changes nothing of what the server holds: the registrations,
    the index name and the browse flag stay, the heap grows by at most one
    archive, every archive keeps its reader and every type it has cached, and
    registered addresses go on holding the archive of their path. *)
Theorem ServeHTTP_keeps (z z' : ZipServer) (heap heap' : list zipFS)
    (w w' : ResponseWriter) (r : Request) :
  ServeHTTP z heap w r = Ret (w', z', heap') →
  (∀ p zl, archives z !! p = Some zl → archives z' !! p = Some zl)
  ∧ (index z' = index z ∧ browse z' = browse z)
  ∧ (length heap ≤ length heap' ≤ length heap + 1)%nat
  ∧ (∀ l zf, heap !! l = Some zf →
       ∃ zf', heap' !! l = Some zf' ∧ ReadCloser zf' = ReadCloser zf
              ∧ ∀ p y, mimeCache zf !! p = Some y →
                       mimeCache zf' !! p = Some y)
  ∧ (registry_ok (archives z) heap → registry_ok (archives z') heap').
Proof.
  unfold ServeHTTP.
  destruct (getArchive z heap (env_get (ProcessEnv r) "SCRIPT_FILENAME"))
    as [[got z1] heap1] eqn:HG.
  pose proof (getArchive_archives_mono _ _ _ _ _ _ HG) as Hmono.
  destruct (getArchive_heap_grows _ _ _ _ _ _ HG) as (more & Hheap & Hlen).
  assert (Hi : index z1 = index z ∧ browse z1 = browse z).
  { revert HG. unfold getArchive. destruct (archives z !! _).
    - by intros [= <- <- <-].
    - destruct (zip_OpenReader _); by intros [= <- <- <-]. }
  assert (Hin : ∀ l zf, heap !! l = Some zf → heap1 !! l = Some zf).
  { intros l zf Hl. rewrite Hheap. by apply lookup_app_l_Some. }
  assert (Hl1 : (length heap ≤ length heap1 ≤ length heap + 1)%nat).
  { rewrite Hheap, length_app. lia. }
  destruct got as [zl|err].
  - destruct (heap1 !! zl) as [zf|] eqn:HL; [|discriminate].
    destruct (ServeHTTP_archive z1 zf w r) as [[w1 zf']|] eqn:HA;
      [|discriminate].
    simpl. intros [= <- <- <-].
    destruct (ServeHTTP_archive_frame _ _ _ _ _ _ HA) as [Hrc Hcache].
    split; [exact Hmono|]. split; [exact Hi|].
    split; [by rewrite length_insert|]. split.
    + intros l zf0 Hl0. apply Hin in Hl0.
      destruct (decide (l = zl)) as [->|Hne].
      * assert (zf0 = zf) as ->
          by (pose proof (eq_trans (eq_sym HL) Hl0) as E; by injection E).
        exists zf'.
        split; [|auto]. apply list_lookup_insert_eq.
        apply lookup_lt_Some in HL. exact HL.
      * exists zf0. split; [by rewrite list_lookup_insert_ne|auto].
    + intros Hok p l Hp.
      apply (holds_archive_insert heap1 zl l zf zf' p HL Hrc).
      exact (getArchive_preserves_ok _ _ _ _ _ _ Hok HG p l Hp).
  - intros [= <- <- <-].
    split; [exact Hmono|]. split; [exact Hi|]. split; [exact Hl1|]. split.
    + intros l zf Hl. exists zf. split; [apply Hin, Hl|auto].
    + intros Hok. exact (getArchive_preserves_ok _ _ _ _ _ _ Hok HG).
Qed.

(** ** Panics of [ServeHTTP] *)





(** X18.  A path that ends in a slash and names a directory, with an index
    name configured that itself finds a directory without an entry of its
    own in the archive: [ServeHTTP] hands that directory to [SendFile], which
    panics on the nil file pointer. *)
Theorem ServeHTTP_index_directory_panics (z z' : ZipServer)
    (heap heap' : list zipFS) (w : ResponseWriter) (r : Request) (zl : loc)
    (zf : zipFS) (entry index_entry : ZipEntry) :
  let orig_path := env_get (ProcessEnv r) "PATH_TRANSLATED" in
  getArchive z heap (env_get (ProcessEnv r) "SCRIPT_FILENAME")
    = (Ok zl, z', heap') →
  heap' !! zl = Some zf →
  HasSuffix orig_path "/" = true →
  FindRaw (ReadCloser zf) (archive_name orig_path) = Ret (Ok entry) →
  is_ReadDirFile (File entry) = true →
  index z ≠ "" →
  FindRaw (ReadCloser zf) (path_Join (archive_name orig_path) (index z))
    = Ret (Ok index_entry) →
  Entry index_entry = None →
  ServeHTTP z heap w r = Panic nil_dereference.
Proof.
  intros orig_path HG HL HS HF Hdir Hidx HFi HN.
  rewrite (ServeHTTP_unfold z heap w r zl z' heap' zf HG HL).
  unfold ServeHTTP_archive. fold orig_path. cbv zeta. rewrite HF. simpl.
  assert (Hi : index z' = index z).
  { pose proof (getArchive_index z heap
                  (env_get (ProcessEnv r) "SCRIPT_FILENAME")) as Hi.
    by rewrite HG in Hi. }
  rewrite Hi, Hdir, HS.
  destruct (String.eqb_spec (index z) "") as [?|_]; [contradiction|]. simpl.
  rewrite HFi. simpl. unfold SendFile. rewrite HN. reflexivity.
Qed.

(** ** The earlier revision against the current one *)

(** X19.  What [RespondWith] of the earlier revision does is what the
    current revision does in two functions: for a file with its entry it is
    [SendFile], and for a directory whose URL path ends in a slash it is
    [SendDirectory]. *)
Theorem RespondWith_split (z : zipFS) (entry : ZipEntry) (w : ResponseWriter)
    (r : Request) :
  (is_ReadDirFile (File entry) = false → is_Some (Entry entry) →
   MainGo.RespondWith z entry w r = SendFile z entry w r)
  ∧ (is_ReadDirFile (File entry) = true → HasSuffix (URL_Path r) "/" = true →
     MainGo.RespondWith z entry w r
     = w' ← SendDirectory z entry w r; Ret (w', z)).
Proof.
  split.
  - intros Hfile [f HE]. unfold MainGo.RespondWith, SendFile.
    destruct (File entry); [discriminate|]. rewrite HE.
    destruct (GetMime z f) as [[ctype z']|]; [|reflexivity]. simpl.
    destruct (Z.eqb (Method f) Deflate && accepts_gzip r); reflexivity.
  - intros Hdir HS. unfold MainGo.RespondWith, SendDirectory.
    destruct (File entry); [|discriminate]. rewrite HS. simpl.
    destruct (zip_ReadDir files); reflexivity.
Qed.

(** X20.  In the earlier revision a path that names a file is answered with
    the delivery of the file whether or not the path ends in a slash; for a
    path without the slash the current revision gives the same response and
    both leave the same registry and heap. *)
Theorem MainGo_ServeHTTP_file (z z' : ZipServer) (heap heap' : list zipFS)
    (w : ResponseWriter) (r : Request) (zl : loc) (zf : zipFS)
    (entry : ZipEntry) :
  let orig_path := env_get (ProcessEnv r) "PATH_TRANSLATED" in
  getArchive z heap (env_get (ProcessEnv r) "SCRIPT_FILENAME")
    = (Ok zl, z', heap') →
  heap' !! zl = Some zf →
  FindRaw (ReadCloser zf) (archive_name orig_path) = Ret (Ok entry) →
  is_ReadDirFile (File entry) = false →
  ∃ w' zf',
    SendFile zf entry w r = Ret (w', zf')
    ∧ MainGo.ServeHTTP {| MainGo.archives := archives z |} heap w r
      = Ret (w', {| MainGo.archives := archives z' |}, <[zl := zf']> heap')
    ∧ (HasSuffix orig_path "/" = false →
       ServeHTTP z heap w r = Ret (w', z', <[zl := zf']> heap')).
Proof.
  intros orig_path HG HL HF Hfile.
  destruct (FindRaw_file _ _ _ HF Hfile) as (f & rc & HE & Hh & HO).
  destruct (GetMime_returns zf f rc HO) as (ctype & zf' & HGM).
  destruct (SendFile_returns zf zf' entry w r f ctype HE HGM) as (w' & HSF).
  exists w', zf'. split; [exact HSF|]. split.
  - assert (HR : MainGo.RespondWith zf entry w r = Ret (w', zf')).
    { rewrite <- HSF. unfold MainGo.RespondWith, SendFile.
      rewrite Hh, HE, HGM. simpl.
      destruct (Z.eqb (Method f) Deflate && accepts_gzip r); reflexivity. }
    unfold MainGo.ServeHTTP. cbv zeta. simpl MainGo.archives.
    revert HG. unfold getArchive.
    destruct (archives z !! env_get (ProcessEnv r) "SCRIPT_FILENAME")
      as [zl0|].
    + intros [= <- <- <-]. unfold loc in HL. rewrite HL.
      rewrite Find_FindRaw. unfold archive_name, orig_path in HF.
      cbv zeta in HF. rewrite HF. simpl. rewrite HR. reflexivity.
    + destruct (zip_OpenReader _) as [rc0|]; [|discriminate].
      intros [= <- <- <-]. unfold loc in HL. simpl in HL |- *. rewrite HL.
      rewrite Find_FindRaw. unfold archive_name, orig_path in HF.
      cbv zeta in HF. rewrite HF. simpl. rewrite HR. reflexivity.
  - intros HS.
    rewrite (ServeHTTP_unfold z heap w r zl z' heap' zf HG HL).
    unfold ServeHTTP_archive. fold orig_path. cbv zeta. rewrite HF. simpl.
    rewrite Hfile, HS. simpl.
    unfold ServeHTTP_dispatch. rewrite HS. simpl. rewrite HSF. reflexivity.
Qed.

(** ** Overlapping calls *)

Lemma sum_list_with_insert {A : Type} (g : A → nat) (l : list A) (i : nat)
    (x y : A) :
  l !! i = Some x →
  (sum_list_with g (<[i := y]> l) + g x = sum_list_with g l + g y)%nat.
Proof.
  revert i. induction l as [|a l IH]; intros [|i] Hl; simpl in *;
    try discriminate.
  - injection Hl as ->. lia.
  - specialize (IH i Hl). lia.
Qed.

Lemma gm_step_pending (p : positive) (sh : zipFS * list positive)
    (t : gm_thread) :
  (sniff_count p (gm_step sh t).1.2 + gm_pending p (gm_step sh t).2
   ≤ sniff_count p sh.2 + gm_pending p t)%nat.
Proof.
  destruct sh as [z sniffed]. destruct t as [f|f|f c|f x|f msg]; simpl.
  - destruct (mime_lookup z f); simpl; lia.
  - destruct (mime_resolve f) as [[c ran]|]; simpl; [|lia].
    unfold sniff_count. destruct ran; simpl; [|lia].
    destruct (Pos.eq_dec (ptr f) p); case_decide; try contradiction; lia.
  - lia.
  - lia.
  - lia.
Qed.

Lemma gm_run_pending (p : positive) (sched : list nat)
    (st : (zipFS * list positive) * list gm_thread) :
  (sniff_count p (run gm_step sched st).1.2
   + sum_list_with (gm_pending p) (run gm_step sched st).2
   ≤ sniff_count p st.1.2 + sum_list_with (gm_pending p) st.2)%nat.
Proof.
  revert st. induction sched as [|i sched IH]; intros st; simpl; [lia|].
  etransitivity; [apply IH|].
  destruct st as [sh ts]. unfold pool_step. simpl.
  destruct (ts !! i) as [t|] eqn:E; simpl; [|lia].
  pose proof (gm_step_pending p sh t) as Hs.
  pose proof (sum_list_with_insert (gm_pending p) ts i t (gm_step sh t).2 E)
    as Hi.
  destruct (gm_step sh t) as [sh' t']. simpl in *. lia.
Qed.

(** X21.  However the calls of [GetMime] overlap, the sniffing runs on a
    file at most as often as there are calls for it: every call sniffs at
    most once. *)
Theorem GetMime_concurrent_sniffs_bounded (z0 : zipFS) (fs : list zip_File)
    (sched : list nat) (p : positive) :
  (sniff_count p (run gm_step sched ((z0, []), gm_lookup <$> fs)).1.2
   ≤ length (filter (fun f => ptr f = p) fs))%nat.
Proof.
  assert (Hinit : sum_list_with (gm_pending p) (gm_lookup <$> fs)
                  = length (filter (fun f => ptr f = p) fs)).
  { induction fs as [|f fs IH]; [reflexivity|].
    rewrite fmap_cons, filter_cons. simpl sum_list_with. rewrite IH.
    case_decide; reflexivity. }
  pose proof (gm_run_pending p sched ((z0, []), gm_lookup <$> fs)) as Hr.
  simpl in Hr. rewrite Hinit in Hr.
  change (sniff_count p []) with 0%nat in Hr. lia.
Qed.

Lemma ga_thread_ok_app (heap more : list zipFS) (path : string)
    (t : ga_thread) :
  ga_thread_ok heap path t → ga_thread_ok (heap ++ more) path t.
Proof.
  destruct t as [p|p|p zl|[zl|err]]; simpl; auto.
  - intros [-> Hh]. split; [reflexivity|]. by apply holds_archive_app.
  - apply holds_archive_app.
Qed.

Lemma ga_step_ok (z : ZipServer) (heap : list zipFS) (path : string)
    (t : ga_thread) :
  registry_ok (archives z) heap →
  ga_thread_ok heap path t →
  registry_ok (archives (ga_step (z, heap) t).1.1) (ga_step (z, heap) t).1.2
  ∧ ga_thread_ok (ga_step (z, heap) t).1.2 path (ga_step (z, heap) t).2
  ∧ (∃ more, (ga_step (z, heap) t).1.2 = (heap ++ more)%list)
  ∧ (length (ga_step (z, heap) t).1.2 + ga_pending (ga_step (z, heap) t).2
     ≤ length heap + ga_pending t)%nat.
Proof.
  intros Hok Ht. destruct t as [p|p|p zl|res]; simpl in *.
  - subst p. destruct (archives z !! path) as [zl|] eqn:E; simpl.
    + split; [exact Hok|]. split; [apply Hok, E|].
      split; [exists []; by rewrite app_nil_r | lia].
    + split; [exact Hok|]. split; [reflexivity|].
      split; [exists []; by rewrite app_nil_r | lia].
  - subst p. destruct (zip_OpenReader path) as [rc|err] eqn:Eo; simpl.
    + split; [intros q l Hq; apply holds_archive_app, Hok, Hq|].
      split; [|split; [eauto | rewrite length_app; simpl; lia]].
      split; [reflexivity|]. exists (newZipFS rc). split; [|exact Eo].
      rewrite lookup_app_r by lia. by rewrite Nat.sub_diag.
    + split; [exact Hok|]. split; [exact Eo|].
      split; [exists []; by rewrite app_nil_r | lia].
  - destruct Ht as [-> Hh]. split; [|split; [exact Hh|]].
    + intros q l. rewrite lookup_insert. case_decide as Hq.
      * intros [= <-]. subst q. exact Hh.
      * apply Hok.
    + split; [exists []; by rewrite app_nil_r | lia].
  - split; [exact Hok|]. split; [exact Ht|].
    split; [exists []; by rewrite app_nil_r | lia].
Qed.

Lemma ga_run_ok (paths : list string) (sched : list nat)
    (st : (ZipServer * list zipFS) * list ga_thread) :
  registry_ok (archives st.1.1) st.1.2 →
  Forall2 (ga_thread_ok st.1.2) paths st.2 →
  let st' := run ga_step sched st in
  registry_ok (archives st'.1.1) st'.1.2
  ∧ Forall2 (ga_thread_ok st'.1.2) paths st'.2
  ∧ (length st'.1.2 + sum_list_with ga_pending st'.2
     ≤ length st.1.2 + sum_list_with ga_pending st.2)%nat.
Proof.
  revert st. induction sched as [|i sched IH]; intros st Hok Hts; simpl.
  - split; [exact Hok|]. split; [exact Hts|lia].
  - destruct st as [[z heap] ts]. simpl in Hok, Hts.
    assert (Hstep : registry_ok (archives (pool_step ga_step (z, heap, ts) i).1.1)
                      (pool_step ga_step (z, heap, ts) i).1.2
              ∧ Forall2 (ga_thread_ok (pool_step ga_step (z, heap, ts) i).1.2)
                  paths (pool_step ga_step (z, heap, ts) i).2
              ∧ (length (pool_step ga_step (z, heap, ts) i).1.2
                 + sum_list_with ga_pending (pool_step ga_step (z, heap, ts) i).2
                 ≤ length heap + sum_list_with ga_pending ts)%nat).
    { unfold pool_step. cbn [fst snd].
      destruct (ts !! i) as [t|] eqn:E; cbn [fst snd];
        [|split; [|split]; auto].
      destruct (Forall2_lookup_r _ _ _ _ _ Hts E) as (path & Hp & Ht).
      destruct (ga_step_ok z heap path t Hok Ht)
        as (Hok' & Ht' & (more & Hmore) & Hlen).
      pose proof (sum_list_with_insert ga_pending ts i t
                    (ga_step (z, heap) t).2 E) as Hsum.
      destruct (ga_step (z, heap) t) as [[z' heap'] t']. cbn [fst snd] in *.
      split; [exact Hok'|]. split; [|lia].
      rewrite <- (list_insert_id paths i path Hp).
      apply Forall2_insert; [|exact Ht'].
      subst heap'. eapply Forall2_impl; [exact Hts|].
      intros q u. apply ga_thread_ok_app. }
    destruct Hstep as (Hok' & Hts' & Hlen').
    destruct (IH _ Hok' Hts') as (Hok'' & Hts'' & Hlen'').
    split; [exact Hok''|]. split; [exact Hts''|]. simpl in *. lia.
Qed.

(** X22.  However the calls of [getArchive] overlap, starting from a
    consistent registry: every registered address still holds the archive
    of its path, every call that returns an address returns one that holds
    the archive of the path it asked for, and the archive is opened at most
    once for each call. *)
Theorem getArchive_concurrent_safe (z0 : ZipServer) (heap0 : list zipFS)
    (paths : list string) (sched : list nat) :
  registry_ok (archives z0) heap0 →
  let st := run ga_step sched ((z0, heap0), ga_check <$> paths) in
  registry_ok (archives st.1.1) st.1.2
  ∧ (∀ i path zl, paths !! i = Some path →
                  st.2 !! i = Some (ga_done (Ok zl)) →
                  holds_archive st.1.2 zl path)
  ∧ (length st.1.2 ≤ length heap0 + length paths)%nat.
Proof.
  intros Hok st.
  assert (Hinit : Forall2 (ga_thread_ok heap0) paths (ga_check <$> paths)).
  { apply Forall2_fmap_r, Forall_Forall2_diag, Forall_forall.
    intros path _. reflexivity. }
  destruct (ga_run_ok paths sched ((z0, heap0), ga_check <$> paths) Hok Hinit)
    as (Hok' & Hts & Hlen).
  assert (Hs : sum_list_with ga_pending (ga_check <$> paths) = length paths).
  { clear. induction paths as [|q paths IH]; [reflexivity|].
    rewrite fmap_cons. simpl sum_list_with. by rewrite IH. }
  subst st. cbv zeta in Hok', Hts, Hlen. cbn [fst snd] in Hlen.
  split; [exact Hok'|]. split.
  - intros i path zl Hp Ht.
    exact (Forall2_lookup_lr _ _ _ _ _ _ Hts Hp Ht).
  - rewrite Hs in Hlen. lia.
Qed.

Lemma ga_step_keeps (z0 z : ZipServer) (heap : list zipFS) (t : ga_thread) :
  (∀ p zl, archives z0 !! p = Some zl → archives z !! p = Some zl) →
  ga_fresh (archives z0) t →
  (∀ p zl, archives z0 !! p = Some zl →
           archives (ga_step (z, heap) t).1.1 !! p = Some zl)
  ∧ ga_fresh (archives z0) (ga_step (z, heap) t).2
  ∧ (∃ more, (ga_step (z, heap) t).1.2 = (heap ++ more)%list)
  ∧ index (ga_step (z, heap) t).1.1 = index z
  ∧ browse (ga_step (z, heap) t).1.1 = browse z.
Proof.
  intros Hkeep Ht. destruct t as [p|p|p zl|res]; simpl in *.
  - destruct (archives z !! p) as [zl|] eqn:E; simpl.
    + split; [exact Hkeep|]. split; [exact I|].
      split; [exists []; by rewrite app_nil_r | auto].
    + split; [exact Hkeep|]. split.
      * destruct (archives z0 !! p) as [zl|] eqn:E0; [|reflexivity].
        apply Hkeep in E0. congruence.
      * split; [exists []; by rewrite app_nil_r | auto].
  - destruct (zip_OpenReader p) as [rc|err]; simpl.
    + split; [exact Hkeep|]. split; [exact Ht|]. split; [eauto | auto].
    + split; [exact Hkeep|]. split; [exact I|].
      split; [exists []; by rewrite app_nil_r | auto].
  - split.
    + intros q l Hq. rewrite lookup_insert_ne; [by apply Hkeep|].
      intros ->. congruence.
    + split; [exact I|]. split; [exists []; by rewrite app_nil_r | auto].
  - split; [exact Hkeep|]. split; [exact I|].
    split; [exists []; by rewrite app_nil_r | auto].
Qed.

Lemma ga_run_keeps (z0 : ZipServer) (sched : list nat)
    (st : (ZipServer * list zipFS) * list ga_thread) :
  (∀ p zl, archives z0 !! p = Some zl → archives st.1.1 !! p = Some zl) →
  Forall (ga_fresh (archives z0)) st.2 →
  let st' := run ga_step sched st in
  (∀ p zl, archives z0 !! p = Some zl → archives st'.1.1 !! p = Some zl)
  ∧ (∃ more, st'.1.2 = (st.1.2 ++ more)%list)
  ∧ index st'.1.1 = index st.1.1
  ∧ browse st'.1.1 = browse st.1.1.
Proof.
  revert st. induction sched as [|i sched IH]; intros st Hkeep Hts; simpl.
  - split; [exact Hkeep|]. split; [exists []; by rewrite app_nil_r | auto].
  - destruct st as [[z heap] ts]. simpl in Hkeep, Hts.
    assert (Hstep :
      (∀ p zl, archives z0 !! p = Some zl →
               archives (pool_step ga_step (z, heap, ts) i).1.1 !! p = Some zl)
      ∧ Forall (ga_fresh (archives z0)) (pool_step ga_step (z, heap, ts) i).2
      ∧ (∃ more, (pool_step ga_step (z, heap, ts) i).1.2
                 = (heap ++ more)%list)
      ∧ index (pool_step ga_step (z, heap, ts) i).1.1 = index z
      ∧ browse (pool_step ga_step (z, heap, ts) i).1.1 = browse z).
    { unfold pool_step. cbn [fst snd].
      destruct (ts !! i) as [t|] eqn:E; cbn [fst snd].
      - pose proof (Forall_lookup_1 _ _ _ _ Hts E) as Ht.
        destruct (ga_step_keeps z0 z heap t Hkeep Ht)
          as (Hk & Hf & Hm & Hi & Hb).
        destruct (ga_step (z, heap) t) as [[z' heap'] t']. cbn [fst snd] in *.
        split; [exact Hk|]. split; [by apply Forall_insert|]. auto.
      - split; [exact Hkeep|]. split; [exact Hts|].
        split; [exists []; by rewrite app_nil_r | auto]. }
    destruct Hstep as (Hk & Hf & (more & Hm) & Hi & Hb).
    destruct (IH _ Hk Hf) as (Hk' & (more' & Hm') & Hi' & Hb').
    split; [exact Hk'|]. split.
    + exists (more ++ more')%list. cbn [fst snd] in *.
      rewrite Hm', Hm. by rewrite app_assoc.
    + cbn [fst snd] in *. split; congruence.
Qed.

(** X23.  However calls of [getArchive] that start now overlap: what is
    registered now stays registered at its address, the heap only grows at
    its end, and the index name and the browse flag stay.  (A registration
    made by one of the calls themselves can be replaced by another of them.) *)
Theorem getArchive_concurrent_keeps (z0 : ZipServer) (heap0 : list zipFS)
    (paths : list string) (sched : list nat) :
  let st := run ga_step sched ((z0, heap0), ga_check <$> paths) in
  (∀ p zl, archives z0 !! p = Some zl → archives st.1.1 !! p = Some zl)
  ∧ (∃ more, st.1.2 = (heap0 ++ more)%list)
  ∧ index st.1.1 = index z0
  ∧ browse st.1.1 = browse z0.
Proof.
  apply (ga_run_keeps z0 sched ((z0, heap0), ga_check <$> paths)).
  - auto.
  - apply Forall_fmap, Forall_forall. intros p _. exact I.
Qed.

End Coverage.

(** * The further properties at the archive [site.zip] *)

Lemma Fixture_registry_empty (heap : list zipFS) :
  registry_ok (H := Fixture.lib) (archives Fixture.server) heap.
Proof. intros p l Hp. vm_compute in Hp. discriminate. Qed.


(** X3 at the first call for [/srv/site.zip]. *)
Lemma getArchive_registry_ok_witness :
  registry_ok (H := Fixture.lib) (archives Fixture.server1) [Fixture.zf]
  ∧ ∀ zl, Ok 0%nat = Ok zl →
          archives Fixture.server1 !! "/srv/site.zip" = Some zl
          ∧ holds_archive (H := Fixture.lib) [Fixture.zf] zl "/srv/site.zip".
Proof.
  apply (getArchive_registry_ok (H := Fixture.lib) Fixture.server
           Fixture.server1 [] [Fixture.zf] "/srv/site.zip" (Ok 0%nat)).
  - apply Fixture_registry_empty.
  - vm_compute. reflexivity.
Defined.

(** X4 at the first call for [/srv/site.zip]. *)
Lemma getArchive_keeps_witness :
  ∃ more, [Fixture.zf] = ([] ++ more)%list ∧ (length more ≤ 1)%nat.
Proof.
  apply (getArchive_keeps (H := Fixture.lib) Fixture.server Fixture.server1
           [] [Fixture.zf] "/srv/site.zip" (Ok 0%nat)).
  vm_compute. reflexivity.
Defined.

(** X5 at the second call for [/srv/site.zip]. *)
Lemma getArchive_again_witness :
  getArchive (H := Fixture.lib) Fixture.server1 [Fixture.zf] "/srv/site.zip"
  = (Ok 0%nat, Fixture.server1, [Fixture.zf]).
Proof.
  apply (getArchive_again (H := Fixture.lib) Fixture.server Fixture.server1
           [] [Fixture.zf] "/srv/site.zip" 0%nat).
  vm_compute. reflexivity.
Defined.

(** X6 at [LICENSE], whose type is sniffed. *)
Lemma GetMime_again_witness :
  let z' := mime_store Fixture.zf Fixture.license "text/plain; charset=utf-8" in
  mimeCache z' !! ptr Fixture.license = Some "text/plain; charset=utf-8"
  ∧ ∀ g, ptr g = ptr Fixture.license →
         GetMime (H := Fixture.lib) z' g
         = Ret ("text/plain; charset=utf-8", z').
Proof.
  apply (GetMime_again (H := Fixture.lib) Fixture.zf).
  vm_compute. reflexivity.
Defined.

(** X7 at [LICENSE]. *)
Lemma GetMime_frame_witness :
  let z' := mime_store Fixture.zf Fixture.license "text/plain; charset=utf-8" in
  ReadCloser z' = ReadCloser Fixture.zf
  ∧ (∀ p, p ≠ ptr Fixture.license →
          mimeCache z' !! p = mimeCache Fixture.zf !! p)
  ∧ (∀ p y, mimeCache Fixture.zf !! p = Some y → mimeCache z' !! p = Some y).
Proof.
  apply (GetMime_frame (H := Fixture.lib) Fixture.zf _ Fixture.license
           "text/plain; charset=utf-8").
  vm_compute. reflexivity.
Defined.

(** X9 at the page [page.html], whose raw stream does not open: the header
    is sent with the type of the page, and the handler's map ends with the
    type of the error text. *)
Lemma SendFile_headers_witness :
  ∃ w',
    SendFile (H := Fixture.lib) Fixture.zf
      (Fixture.entry_of Fixture.broken_page)
      new_ResponseWriter (Fixture.get "/page.html" "gzip")
    = Ret (w', mime_store Fixture.zf Fixture.broken_page
                 "text/html; charset=utf-8")
    ∧ sent_header w' !! "Last-Modified" = Some "Tue, 14 Nov 2023 22:13:20 GMT"
    ∧ sent_header w' !! "Content-Type" = Some "text/html; charset=utf-8"
    ∧ sent_header w' !! "Content-Encoding" = Some "gzip"
    ∧ status w' = Some 200
    ∧ header w' !! "Content-Type" = Some "text/plain; charset=utf-8".
Proof.
  destruct (SendFile_headers (H := Fixture.lib) Fixture.zf
              (mime_store Fixture.zf Fixture.broken_page
                 "text/html; charset=utf-8")
              (Fixture.entry_of Fixture.broken_page) new_ResponseWriter
              (Fixture.get "/page.html" "gzip") Fixture.broken_page
              "text/html; charset=utf-8")
    as (w' & HS & HLM & HCT & Hgz); [vm_compute; reflexivity ..|].
  destruct Hgz as (HCE & Hst & Herr); [vm_compute; reflexivity|].
  exists w'. split; [exact HS|]. split; [exact HLM|]. split; [exact HCT|].
  split; [exact HCE|]. split; [exact Hst|].
  apply (Herr "zip: not a valid zip file"). reflexivity.
Defined.

(** X10 at the directory [docs], which has no entry of its own. *)
Lemma SendDirectory_response_witness :
  ∃ w',
    SendDirectory (H := Fixture.lib) Fixture.zf Fixture.docs_entry
      new_ResponseWriter (Fixture.get "/docs/" "") = Ret w'
    ∧ header w' !! "Last-Modified" = None
    ∧ body w' = bytes_of_string "<h1>/docs/</h1>"
    ∧ header w' !! "Content-Type" = Some "text/html; charset=utf-8"
    ∧ status w' = Some 200.
Proof.
  apply (SendDirectory_response (H := Fixture.lib) Fixture.zf
           Fixture.docs_entry new_ResponseWriter (Fixture.get "/docs/" "")
           {| name := "docs/"; file := None; isDir := true; isDup := false |}
           [] 0%nat).
  reflexivity.
Defined.

(** X11 at a request for an archive that does not exist. *)
Lemma ServeHTTP_archive_unavailable_witness :
  let r := {| req_Method := "GET"; URL_Path := "/x"; req_Header := ∅;
              ProcessEnv := {[ "SCRIPT_FILENAME" := "/srv/missing.zip" ]} |} in
  let w' := http_Error new_ResponseWriter
              "open /srv/missing.zip: no such file or directory"
              StatusNotFound in
  ServeHTTP (H := Fixture.lib) Fixture.server [] new_ResponseWriter r
  = Ret (w', Fixture.server, [])
  ∧ (status new_ResponseWriter = None → status w' = Some 404)
  ∧ body w' = ([] ++ bytes_of_string
                      ("open /srv/missing.zip: no such file or directory"
                       ++ newline))%list.
Proof.
  intros r.
  apply (ServeHTTP_archive_unavailable (H := Fixture.lib) Fixture.server []
           new_ResponseWriter r
           "open /srv/missing.zip: no such file or directory");
    vm_compute; reflexivity.
Defined.

(** X12 at [/nope]. *)
Lemma ServeHTTP_unknown_name_witness :
  let w' := http_Error new_ResponseWriter "open nope: file does not exist"
              StatusNotFound in
  ServeHTTP (H := Fixture.lib) Fixture.server [] new_ResponseWriter
    (Fixture.get "/nope" "")
  = Ret (w', Fixture.server1, [Fixture.zf])
  ∧ (status new_ResponseWriter = None → status w' = Some 404)
  ∧ archives Fixture.server1 !! "/srv/site.zip" = Some 0%nat.
Proof.
  apply (ServeHTTP_unknown_name (H := Fixture.lib) Fixture.server
           Fixture.server1 [] [Fixture.zf] new_ResponseWriter
           (Fixture.get "/nope" "") 0%nat Fixture.zf
           "open nope: file does not exist");
    vm_compute; reflexivity.
Defined.

(** X13 at [/], where the archive has no [index.html]. *)
Lemma ServeHTTP_listing_witness :
  let root := {| File := openDir Fixture.dotFile [] 0; Entry := None |} in
  ∃ w',
    SendDirectory (H := Fixture.lib) Fixture.zf root new_ResponseWriter
      (Fixture.get "/" "") = Ret w'
    ∧ ServeHTTP (H := Fixture.lib) Fixture.server [] new_ResponseWriter
        (Fixture.get "/" "")
      = Ret (w', Fixture.server1, [Fixture.zf]).
Proof.
  intros root.
  apply (ServeHTTP_listing (H := Fixture.lib) Fixture.server Fixture.server1
           [] [Fixture.zf] new_ResponseWriter (Fixture.get "/" "") 0%nat
           Fixture.zf root); try (vm_compute; reflexivity).
  right. eexists. vm_compute. reflexivity.
Defined.

(** X14 at [/docs/readme.txt]. *)
Lemma ServeHTTP_file_witness :
  ∃ w' zf',
    SendFile (H := Fixture.lib) Fixture.zf (Fixture.entry_of Fixture.readme)
      new_ResponseWriter (Fixture.get "/docs/readme.txt" "") = Ret (w', zf')
    ∧ ServeHTTP (H := Fixture.lib) Fixture.server [] new_ResponseWriter
        (Fixture.get "/docs/readme.txt" "")
      = Ret (w', Fixture.server1, <[0%nat := zf']> [Fixture.zf]).
Proof.
  apply (ServeHTTP_file (H := Fixture.lib) Fixture.server Fixture.server1
           [] [Fixture.zf] new_ResponseWriter
           (Fixture.get "/docs/readme.txt" "") 0%nat Fixture.zf
           (Fixture.entry_of Fixture.readme));
    vm_compute; reflexivity.
Defined.

(** X15 at [/LICENSE], requested twice. *)
Lemma ServeHTTP_again_witness :
  ∃ w1 z1 h1,
    ServeHTTP (H := Fixture.lib) Fixture.server [] new_ResponseWriter
      (Fixture.get "/LICENSE" "") = Ret (w1, z1, h1)
    ∧ ServeHTTP (H := Fixture.lib) z1 h1 new_ResponseWriter
        (Fixture.get "/LICENSE" "") = Ret (w1, z1, h1).
Proof.
  eexists _, _, _. split; [vm_compute; reflexivity|].
  apply (ServeHTTP_again (H := Fixture.lib) Fixture.server _ []).
  vm_compute. reflexivity.
Defined.

(** X16 at [/LICENSE]. *)
Lemma ServeHTTP_keeps_witness :
  ∃ w' z' heap',
    ServeHTTP (H := Fixture.lib) Fixture.server [] new_ResponseWriter
      (Fixture.get "/LICENSE" "") = Ret (w', z', heap')
    ∧ (index z' = "index.html" ∧ browse z' = true)
    ∧ (0 ≤ length heap' ≤ 1)%nat
    ∧ registry_ok (H := Fixture.lib) (archives z') heap'.
Proof.
  eexists _, _, _. split; [vm_compute; reflexivity|].
  destruct (ServeHTTP_keeps (H := Fixture.lib) Fixture.server _ [] _
              new_ResponseWriter _ (Fixture.get "/LICENSE" "")
              ltac:(vm_compute; reflexivity))
    as (_ & Hflags & Hlen & _ & Hok).
  split; [exact Hflags|]. split; [exact Hlen|].
  apply Hok, Fixture_registry_empty.
Defined.


(** X18 at [/], on a server whose index name is [docs]. *)
Lemma ServeHTTP_index_directory_panics_witness :
  ServeHTTP (H := Fixture.lib) (NewZipServer "docs" true) []
    new_ResponseWriter (Fixture.get "/" "") = Panic nil_dereference.
Proof.
  apply (ServeHTTP_index_directory_panics (H := Fixture.lib)
           (NewZipServer "docs" true)
           (set_archive (NewZipServer "docs" true) "/srv/site.zip" 0%nat)
           [] [Fixture.zf] new_ResponseWriter (Fixture.get "/" "") 0%nat
           Fixture.zf {| File := openDir Fixture.dotFile [] 0; Entry := None |}
           Fixture.docs_entry);
    vm_compute; solve [reflexivity | discriminate].
Defined.

(** X19 at [docs/readme.txt]. *)
Lemma RespondWith_split_witness :
  MainGo.RespondWith (H := Fixture.lib) Fixture.zf
    (Fixture.entry_of Fixture.readme) new_ResponseWriter
    (Fixture.get "/docs/readme.txt" "gzip")
  = SendFile (H := Fixture.lib) Fixture.zf (Fixture.entry_of Fixture.readme)
      new_ResponseWriter (Fixture.get "/docs/readme.txt" "gzip").
Proof.
  apply (RespondWith_split (H := Fixture.lib)); [reflexivity|].
  exists Fixture.readme. reflexivity.
Defined.

(** X20 at [/docs/readme.txt/], which the earlier revision serves. *)
Lemma MainGo_ServeHTTP_file_witness :
  ∃ w' zf',
    SendFile (H := Fixture.lib) Fixture.zf (Fixture.entry_of Fixture.readme)
      new_ResponseWriter (Fixture.get "/docs/readme.txt/" "") = Ret (w', zf')
    ∧ MainGo.ServeHTTP (H := Fixture.lib) {| MainGo.archives := ∅ |} []
        new_ResponseWriter (Fixture.get "/docs/readme.txt/" "")
      = Ret (w', {| MainGo.archives := archives Fixture.server1 |},
             <[0%nat := zf']> [Fixture.zf]).
Proof.
  destruct (MainGo_ServeHTTP_file (H := Fixture.lib) Fixture.server
              Fixture.server1 [] [Fixture.zf] new_ResponseWriter
              (Fixture.get "/docs/readme.txt/" "") 0%nat Fixture.zf
              (Fixture.entry_of Fixture.readme))
    as (w' & zf' & HS & HM & _); [vm_compute; reflexivity ..|].
  exists w', zf'. split; [exact HS | exact HM].
Defined.

(** X22 at two overlapping first calls for [/srv/site.zip]. *)
Lemma getArchive_concurrent_safe_witness :
  let st := run (ga_step (H := Fixture.lib)) [0; 1; 0; 0; 1; 1]%nat
              ((Fixture.server, []),
               ga_check <$> ["/srv/site.zip"; "/srv/site.zip"]) in
  registry_ok (H := Fixture.lib) (archives st.1.1) st.1.2
  ∧ (∀ i path zl, ["/srv/site.zip"; "/srv/site.zip"] !! i = Some path →
                  st.2 !! i = Some (ga_done (Ok zl)) →
                  holds_archive (H := Fixture.lib) st.1.2 zl path)
  ∧ (length st.1.2 ≤ length ([] : list zipFS) + 2)%nat.
Proof.
  apply (getArchive_concurrent_safe (H := Fixture.lib) Fixture.server []
           ["/srv/site.zip"; "/srv/site.zip"] [0; 1; 0; 0; 1; 1]%nat).
  apply Fixture_registry_empty.
Defined.
